(** * The hand-written parameter-shift gradient of [3-quantum-gradients.ipynb]

    The notebook defines three functions of its own:
    [parameter_shift_term], [parameter_shift] and [num_evals].  They are
    embedded here as programs of a small state-and-exception monad over a
    heap of numpy arrays, so that copies, in-place updates, oracle calls and
    raised exceptions are all visible in the statements.

    Numbers: numpy's float64 entries, [np.pi] and the literal [0.5] are
    taken as real numbers ([R], [PI], [0.5]); rounding is not modelled.
    Python's unbounded integers are [Z].  What rounding does to the two
    shifts of [parameter_shift_term] is shown apart, on binary64 floats
    ([shifted_float64]). *)

From Stdlib Require Import Reals Lra Lia ZArith String.
From Stdlib Require Import PrimFloat.
From Stdlib Require SpecFloat FloatOps.
From stdpp Require Import base list.

(** ** Data model *)

(** A heap location: the identity of a Python object. *)
Abbreviation loc := nat (only parsing).

(** A numpy array as the notebook uses it.  A 2-D array is given by its
    rows; numpy only builds it from rows of one length ([rectangular]).
    [Array2] is a 2-D array of dtype float64, as [w] is; [Array2i] is a
    2-D array of dtype int64, which a caller's tensor of whole numbers
    has.  A 1-D array is what numpy 1.19 (the version the notebooks
    install) builds from rows of unequal length: one object per row.  Only
    its length is kept, the notebook's functions never read its items. *)
Inductive ndarray :=
| Array1 (size : nat)
| Array2 (rows : list (list R))
| Array2i (rows : list (list Z)).

(** What [np.zeros_like] accepts: an array object, or a nested Python
    list given by value. *)
Inductive arraylike :=
| Ref (l : loc)
| Nested (rows : list (list R)).

(** A Python exception, identified by the name of its class. *)
Inductive exn := PyExc (cls : string).

Definition IndexError := PyExc "IndexError".
Definition TypeError := PyExc "TypeError".
Definition ValueError := PyExc "ValueError".
Definition ShapeError := PyExc "ShapeError".
Definition SystemError := PyExc "SystemError".

Inductive outcome (A : Type) :=
| Ok (a : A)
| Raise (e : exn).
Arguments Ok {A} a.
Arguments Raise {A} e.

(** The expectation oracle ([qnode]): a function of the data vector and of
    the array it is handed, which returns a number or raises.  It changes
    neither of them and keeps no state of its own. *)
Definition oracle := list R -> ndarray -> exn + R.

(** The machine state: the heap of array objects and the log of the oracle
    evaluations made so far, oldest first, each with the value its
    argument had when the call was made. *)
Record state := mkState {
  heap : list ndarray;
  calls : list (list R * ndarray)
}.

(** ** The monad *)

Definition M (A : Type) := state -> outcome A * state.

Definition ret {A} (a : A) : M A := fun st => (Ok a, st).

Definition raise {A} (e : exn) : M A := fun st => (Raise e, st).

Definition bind {A B} (m : M A) (f : A -> M B) : M B :=
  fun st => match m st with
            | (Ok a, st') => f a st'
            | (Raise e, st') => (Raise e, st')
            end.

Declare Scope py_scope.
Delimit Scope py_scope with py.
Notation "x <- c1 ;; c2" := (bind c1 (fun x => c2))
  (at level 100, c1 at next level, right associativity) : py_scope.
Notation "c1 ;;; c2" := (bind c1 (fun _ => c2))
  (at level 100, right associativity) : py_scope.
Local Open Scope py_scope.

(** [for a in l: body(a)] *)
Fixpoint for_each {A} (l : list A) (body : A -> M unit) : M unit :=
  match l with
  | [] => ret tt
  | a :: l' => body a ;;; for_each l' body
  end.

(** [range(n)] *)
Definition range (n : nat) : list nat := seq 0 n.

(** ** numpy primitives *)

Definition rectangular (rows : list (list R)) : bool :=
  match rows with
  | [] => true
  | r :: rs => forallb (fun r' => Nat.eqb (length r') (length r)) rs
  end.

Definition zero_rows (rows : list (list R)) : list (list R) :=
  map (map (fun _ => 0%R)) rows.

Definition zero_irows (rows : list (list Z)) : list (list Z) :=
  map (map (fun _ => 0%Z)) rows.

(** The zeros of [np.zeros_like]: of the shape and of the dtype of [a]. *)
Definition zeros_of (a : ndarray) : ndarray :=
  match a with
  | Array1 n => Array1 n
  | Array2 rows => Array2 (zero_rows rows)
  | Array2i rows => Array2i (zero_irows rows)
  end.

(** [np.array(rows)] : rows of one length give a 2-D array; rows of
    unequal length give a 1-D array of row objects. *)
Definition as_array (rows : list (list R)) : ndarray :=
  if rectangular rows then Array2 rows
  else Array1 (length rows).

(** A new object, placed after all the existing ones. *)
Definition alloc (a : ndarray) : M loc :=
  fun st => (Ok (length (heap st)),
             mkState (heap st ++ [a]) (calls st)).

(** The object behind a reference.  A reference to nothing does not arise
    in Python; the model raises [SystemError] for it. *)
Definition deref (l : loc) : M ndarray :=
  fun st => match heap st !! l with
            | Some a => (Ok a, st)
            | None => (Raise SystemError, st)
            end.

Definition store (l : loc) (a : ndarray) : M unit :=
  fun st => (Ok tt, mkState (<[l := a]> (heap st)) (calls st)).

(** [a.copy()] *)
Definition copy (l : loc) : M loc :=
  a <- deref l ;; alloc a.

(** [np.zeros_like(p)] *)
Definition zeros_like (p : arraylike) : M loc :=
  match p with
  | Ref l => a <- deref l ;; alloc (zeros_of a)
  | Nested rows => alloc (zeros_of (as_array rows))
  end.

(** [len(a)] *)
Definition len (l : loc) : M nat :=
  a <- deref l ;;
  match a with
  | Array1 n => ret n
  | Array2 rows => ret (length rows)
  | Array2i rows => ret (length rows)
  end.

(** [len(a[k])]: the length of row [k] of a 2-D array; an item of a 1-D
    array is a scalar and has no length. *)
Definition len_item (l : loc) (k : nat) : M nat :=
  a <- deref l ;;
  match a with
  | Array1 n =>
      if decide (k < n) then raise TypeError else raise IndexError
  | Array2 rows =>
      match rows !! k with
      | Some r => ret (length r)
      | None => raise IndexError
      end
  | Array2i rows =>
      match rows !! k with
      | Some r => ret (length r)
      | None => raise IndexError
      end
  end.

Definition entry (rows : list (list R)) (i j : nat) : option R :=
  r ← rows !! i; r !! j.

Definition set_entry (rows : list (list R)) (i j : nat) (v : R)
  : list (list R) :=
  match rows !! i with
  | Some r => <[i := <[j := v]> r]> rows
  | None => rows
  end.

(** The same for the rows of an int64 array. *)
Definition ientry (rows : list (list Z)) (i j : nat) : option Z :=
  r ← rows !! i; r !! j.

Definition set_ientry (rows : list (list Z)) (i j : nat) (z : Z)
  : list (list Z) :=
  match rows !! i with
  | Some r => <[i := <[j := z]> r]> rows
  | None => rows
  end.

(** What numpy stores when a float is assigned into an int64 array: the
    float cut towards zero; a float beyond the int64 range gives the
    least int64 (as the conversion does on x86-64). *)
Definition trunc (v : R) : Z :=
  if Rle_dec 0 v then Int_part v else (- Int_part (- v))%Z.

Definition int64_min : Z := (- 2 ^ 63)%Z.

Definition to_int64 (v : R) : Z :=
  if ((int64_min <=? trunc v) && (trunc v <? 2 ^ 63))%Z
  then trunc v else int64_min.

(** [a[i, j]] read *)
Definition getitem2 (l : loc) (i j : nat) : M R :=
  a <- deref l ;;
  match a with
  | Array1 _ => raise IndexError
  | Array2 rows =>
      match entry rows i j with
      | Some v => ret v
      | None => raise IndexError
      end
  | Array2i rows =>
      match ientry rows i j with
      | Some z => ret (IZR z)
      | None => raise IndexError
      end
  end.

(** [a[i, j] = v]; an int64 array stores [v] as an int64. *)
Definition setitem2 (l : loc) (i j : nat) (v : R) : M unit :=
  a <- deref l ;;
  match a with
  | Array1 _ => raise IndexError
  | Array2 rows =>
      match entry rows i j with
      | Some _ => store l (Array2 (set_entry rows i j v))
      | None => raise IndexError
      end
  | Array2i rows =>
      match ientry rows i j with
      | Some _ => store l (Array2i (set_ientry rows i j (to_int64 v)))
      | None => raise IndexError
      end
  end.

(** [a[i, j] += c] and [a[i, j] -= c] *)
Definition iadd2 (l : loc) (i j : nat) (c : R) : M unit :=
  v <- getitem2 l i j ;; setitem2 l i j (v + c)%R.

Definition isub2 (l : loc) (i j : nat) (c : R) : M unit :=
  v <- getitem2 l i j ;; setitem2 l i j (v - c)%R.

(** [qnode(x, a)]: the oracle sees the present value of [a]; the call is
    logged whether it returns or raises. *)
Definition call (qnode : oracle) (x : list R) (l : loc) : M R :=
  a <- deref l ;;
  fun st =>
    let st' := mkState (heap st) (calls st ++ [(x, a)]) in
    match qnode x a with
    | inr v => (Ok v, st')
    | inl e => (Raise e, st')
    end.

(** ** The notebook's functions *)

Definition parameter_shift_term (qnode : oracle) (params : loc)
    (x : list R) (i j : nat) : M R :=
  shifted <- copy params ;;
  iadd2 shifted i j (PI / 2)%R ;;;
  forward <- call qnode x shifted ;;
  isub2 shifted i j PI ;;;
  backward <- call qnode x shifted ;;
  ret (0.5 * (forward - backward))%R.

(** [w] is the module-level name the body of [parameter_shift] reads; it
    is bound to an array object of the heap. *)
Definition parameter_shift (w : loc) (qnode : oracle) (params : arraylike)
    (x : list R) : M loc :=
  gradients <- zeros_like params ;;
  n <- len gradients ;;
  for_each (range n) (fun i =>
    m <- len_item gradients 0 ;;
    for_each (range m) (fun j =>
      g <- parameter_shift_term qnode w x i j ;;
      setitem2 gradients i j g)) ;;;
  ret gradients.

Definition num_evals (n_params n_steps : Z) : M Z :=
  ret (2 * n_params * n_steps)%Z.

(** The notebook's bindings of [x] and [w]. *)
Definition nb_x : list R := [0.1; 0.2]%R.
Definition nb_w : list (list R) :=
  [[-2.1; 1.2]; [-1.4; -3.9]; [0.5; 0.2]]%R.

(** The heap when the notebook calls [parameter_shift]: [w] is object 0. *)
Definition nb_state : state := mkState [Array2 nb_w] [].

(** ** Inputs used in the examples *)

Definition zeros_3_2 : list (list R) := [[0; 0]; [0; 0]; [0; 0]]%R.
Definition zeros_4_2 : list (list R) := [[0; 0]; [0; 0]; [0; 0]; [0; 0]]%R.

(** [w] is object 0, a caller's own [(3, 2)] tensor of zeros is object 1. *)
Definition two_tensors : state :=
  mkState [Array2 nb_w; Array2 zeros_3_2] [].

(** The same with a caller's tensor of shape [(4, 2)]. *)
Definition taller_tensor : state :=
  mkState [Array2 nb_w; Array2 zeros_4_2] [].

(** An oracle that multiplies entries [(0, 0)] and [(0, 1)]. *)
Definition product_oracle : list R -> ndarray -> R :=
  fun _ a =>
    match a with
    | Array2 rows =>
        match entry rows 0 0, entry rows 0 1 with
        | Some a, Some b => (a * b)%R
        | _, _ => 0%R
        end
    | _ => 0%R
    end.

(** The single-parameter oracle [f(theta) = cos(theta)], [theta] being
    entry [(0, 0)] of the tensor. *)
Definition cos_oracle : oracle :=
  fun _ a =>
    match a with
    | Array2 rows =>
        match entry rows 0 0 with
        | Some theta => inr (cos theta)
        | None => inl IndexError
        end
    | _ => inl IndexError
    end.

(** An oracle whose every evaluation fails. *)
Definition DeviceError := PyExc "DeviceError".
Definition broken_oracle : oracle := fun _ _ => inl DeviceError.

(** ** Vocabulary of the statements *)

(** An oracle that returns on every input. *)
Definition pure_oracle (f : list R -> ndarray -> R) : oracle :=
  fun x a => inr (f x a).

(** [rows] with entry [(i, j)] increased by [d], all else as it was. *)
Definition bump (rows : list (list R)) (i j : nat) (d : R)
  : list (list R) :=
  match entry rows i j with
  | Some v => set_entry rows i j (v + d)%R
  | None => rows
  end.

(** The one-dimensional parameter-shift estimate of [f] at entry [(i, j)]
    of [rows]: half the difference of [f] at the entry shifted up and down
    by [PI / 2]. *)
Definition shift_estimate (f : list R -> ndarray -> R) (x : list R)
    (rows : list (list R)) (i j : nat) : R :=
  (0.5 * (f x (Array2 (bump rows i j (PI / 2)))
          - f x (Array2 (bump rows i j (- (PI / 2))))))%R.

(** [rows] has [L] rows of length [W] each. *)
Definition has_shape (rows : list (list R)) (L W : nat) : bool :=
  Nat.eqb (length rows) L
  && forallb (fun r => Nat.eqb (length r) W) rows.

(** Every index pair of an [(L, W)] array is an index pair of [rows]. *)
Definition covers (rows : list (list R)) (L W : nat) : bool :=
  forallb (fun i => match rows !! i with
                    | Some r => W <=? length r
                    | None => false
                    end) (seq 0 L).

(** The array an array-like argument stands for. *)
Definition array_of (st : state) (p : arraylike) : option ndarray :=
  match p with
  | Ref l => heap st !! l
  | Nested rows => Some (as_array rows)
  end.

(** [m] leaves the first [n] objects of the heap as they are, removes no
    object, and returns only values that satisfy [post]. *)
Definition keeps {A} (n : nat) (m : M A) (post : A -> Prop) : Prop :=
  forall st, n <= length (heap st) ->
    (forall l, l < n -> heap (m st).2 !! l = heap st !! l)
    /\ length (heap st) <= length (heap (m st).2)
    /\ (forall a, (m st).1 = Ok a -> post a).

(** The oracle calls [new] made by a run with outcome [out]: a call on
    which the oracle fails is the last one made, and its exception is the
    outcome. *)
Definition stops_at_failure {A} (q : oracle) (out : outcome A)
    (new : list (list R * ndarray)) : Prop :=
  forall k c e, new !! k = Some c -> q c.1 c.2 = inl e ->
    out = Raise e /\ length new = S k.

(** [m] only adds to the call log, and stops at the first failure of the
    oracle [q]. *)
Definition fail_fast {A} (q : oracle) (m : M A) : Prop :=
  forall st, exists new,
    calls (m st).2 = calls st ++ new /\ stops_at_failure q (m st).1 new.

(** Where the loops of [parameter_shift] stand when row-major position
    [(k, m)] is next, in a run that started in [st0] with [w] bound to
    [wrows]: the objects of [st0] are as they were, the gradient array (the
    first object made by the run) has its shape and holds the estimates of
    the entries already passed, and two oracle calls were made for each. *)
Definition progress (st0 : state) (f : list R -> ndarray -> R) (x : list R)
    (wrows : list (list R)) (L W k m : nat) (st : state) : Prop :=
  (forall l, l < length (heap st0) -> heap st !! l = heap st0 !! l)
  /\ (exists G, heap st !! length (heap st0) = Some (Array2 G)
        /\ has_shape G L W = true
        /\ forall i j, (i < k /\ j < W) \/ (i = k /\ j < m) ->
             entry G i j = Some (shift_estimate f x wrows i j))
  /\ length (calls st) = length (calls st0) + 2 * (k * W + m).

(** ** The plotting cell and repeated gradients *)

(** [[f(a) for a in l]] *)
Fixpoint comprehension {A B} (l : list A) (f : A -> M B) : M (list B) :=
  match l with
  | [] => ret []
  | a :: l' => b <- f a ;; bs <- comprehension l' f ;; ret (b :: bs)
  end.

(** [range(start, stop, step)] for a positive [step]. *)
Definition range3 (start stop step : Z) : list Z :=
  map (fun k => (start + step * Z.of_nat k)%Z)
      (seq 0 (Z.to_nat ((stop - start + step - 1) / step))).

Definition x_axis : list Z := range3 1 500 25.

(** [scaling = [num_evals(i, i) for i in x_axis]] and the baseline
    [[x for x in x_axis]] it is plotted against. *)
Definition scaling (x_axis : list Z) : M (list Z) :=
  comprehension x_axis (fun i => num_evals i i).

Definition backprop (x_axis : list Z) : M (list Z) :=
  comprehension x_axis (fun x => ret x).

(** [n_steps] gradient computations one after the other, as each step of
    the training that [num_evals] counts for needs one. *)
Definition gradient_steps (w : loc) (qnode : oracle) (params : arraylike)
    (x : list R) (n_steps : nat) : M unit :=
  for_each (range n_steps) (fun _ =>
    parameter_shift w qnode params x ;;; ret tt).

(** ** Vocabulary of the further properties *)

(** The two oracle calls of the shift of entry [(i, j)] of [rows]. *)
Definition shift_calls (x : list R) (rows : list (list R)) (i j : nat)
  : list (list R * ndarray) :=
  [(x, Array2 (bump rows i j (PI / 2)));
   (x, Array2 (bump rows i j (- (PI / 2))))].

(** The calls of the first [m] entries of row [i], and of all the entries
    that come before [(k, m)] in row-major order. *)
Definition row_calls (x : list R) (rows : list (list R)) (i m : nat)
  : list (list R * ndarray) :=
  flat_map (shift_calls x rows i) (seq 0 m).

Definition calls_before (x : list R) (rows : list (list R)) (W k m : nat)
  : list (list R * ndarray) :=
  flat_map (fun i => row_calls x rows i W) (seq 0 k) ++ row_calls x rows k m.

(** [progress], with the oracle calls made so far. *)
Definition traced (st0 : state) (f : list R -> ndarray -> R) (x : list R)
    (wrows : list (list R)) (L W k m : nat) (st : state) : Prop :=
  progress st0 f x wrows L W k m st
  /\ calls st = calls st0 ++ calls_before x wrows W k m.

(** Every index pair before [(k, m)] in row-major order, for rows of [W]
    entries, is an index pair of [rows]. *)
Definition covers_until (rows : list (list R)) (W k m : nat) : bool :=
  covers rows k W
  && match rows !! k with
     | Some r => m <=? length r
     | None => Nat.eqb m 0
     end.

(** An oracle that is [A + B cos t + C sin t] in entry [(0, 0)]. *)
Definition sinusoid_oracle (A B C : R) : list R -> ndarray -> R :=
  fun _ a =>
    match a with
    | Array2 rows =>
        match entry rows 0 0 with
        | Some t => (A + B * cos t + C * sin t)%R
        | None => 0%R
        end
    | _ => 0%R
    end.

(** An oracle that reads entry [(0, 0)] only. *)
Definition first_entry_oracle : list R -> ndarray -> R :=
  fun _ a =>
    match a with
    | Array2 rows => default 0%R (entry rows 0 0)
    | _ => 0%R
    end.

(** ** Vocabulary for the dtype of the argument *)








(** ** One parameter, and the shifts in float64 *)

(** The oracle [f] of a single parameter, entry [(0, 0)] of the tensor. *)
Definition single_parameter (f : R -> R) : oracle :=
  fun _ a =>
    match a with
    | Array2 rows =>
        match entry rows 0 0 with
        | Some theta => inr (f theta)
        | None => inl IndexError
        end
    | _ => inl IndexError
    end.

(** [np.pi], the binary64 float nearest to pi. *)
Definition np_pi : float := 0x1.921fb54442d18p+1%float.

(** The real number a finite float stands for. *)
Definition float_value (t : float) : R :=
  match FloatOps.Prim2SF t with
  | SpecFloat.S754_finite s m e =>
      ((if s then -1 else 1) * IZR (Zpos m) * powerRZ 2 e)%R
  | _ => 0%R
  end.

(** Lines 195 to 201 of [parameter_shift_term] on one float64 parameter:
    the copy, [+= np.pi/2], [-= np.pi], each rounded to the nearest float
    as numpy does; the two values the oracle is called on. *)
Definition shifted_float64 (theta : float) : float * float :=
  let shifted := theta in
  let shifted := PrimFloat.add shifted (PrimFloat.div np_pi 2) in
  let forward_at := shifted in
  let shifted := PrimFloat.sub shifted np_pi in
  (forward_at, shifted).

(** The estimate for an oracle [qnode] of one real parameter when only
    the shifts are rounded: the oracle's values and their half-difference
    are kept exact. *)
Definition parameter_shift_term_float64 (qnode : R -> R) (theta : float)
  : R :=
  (0.5 * (qnode (float_value (shifted_float64 theta).1)
          - qnode (float_value (shifted_float64 theta).2)))%R.

(** Two neighbouring floats, [2^55 + 8] and [2^55 + 16]; floats are 8
    apart there. *)
Definition theta_big : float := 0x1.0000000000001p+55%float.
Definition theta_big_next : float := 0x1.0000000000002p+55%float.

(** ** Entries of a list of rows *)

Lemma entry_Some rows i j v :
  entry rows i j = Some v <->
  exists r, rows !! i = Some r /\ r !! j = Some v.
Proof.
  unfold entry. destruct (rows !! i) as [r|]; simpl; split.
  - intros H. eauto.
  - intros (r' & [= ->] & H). done.
  - done.
  - intros (r' & [=] & _).
Qed.

Lemma entry_set_entry_eq rows i j v0 v :
  entry rows i j = Some v0 -> entry (set_entry rows i j v) i j = Some v.
Proof.
  intros (r & Hi & Hj)%entry_Some. unfold set_entry, entry. rewrite Hi.
  rewrite list_lookup_insert_eq by (by eapply lookup_lt_Some). simpl.
  apply list_lookup_insert_eq. by eapply lookup_lt_Some.
Qed.

Lemma entry_set_entry_ne rows i j i' j' v :
  (i, j) <> (i', j') ->
  entry (set_entry rows i j v) i' j' = entry rows i' j'.
Proof.
  intros Hne. unfold set_entry, entry.
  destruct (rows !! i) as [r|] eqn:Hi; [|done].
  destruct (decide (i = i')) as [<-|Hii].
  - rewrite list_lookup_insert_eq by (by eapply lookup_lt_Some).
    rewrite Hi. simpl. apply list_lookup_insert_ne. congruence.
  - by rewrite list_lookup_insert_ne.
Qed.

Lemma set_entry_twice rows i j v v' :
  set_entry (set_entry rows i j v) i j v' = set_entry rows i j v'.
Proof.
  unfold set_entry. destruct (rows !! i) as [r|] eqn:Hi.
  - rewrite list_lookup_insert_eq by (by eapply lookup_lt_Some).
    by rewrite list_insert_insert_eq, list_insert_insert_eq.
  - by rewrite Hi.
Qed.

Lemma set_entry_lengths rows i j v :
  map length (set_entry rows i j v) = map length rows.
Proof.
  unfold set_entry. destruct (rows !! i) as [r|] eqn:Hi; [|done].
  apply list_eq. intros k. rewrite !list_lookup_fmap.
  destruct (decide (i = k)) as [<-|Hne].
  - rewrite list_lookup_insert_eq by (by eapply lookup_lt_Some).
    rewrite Hi. simpl. by rewrite length_insert.
  - by rewrite list_lookup_insert_ne.
Qed.

Lemma set_entry_length rows i j v :
  length (set_entry rows i j v) = length rows.
Proof.
  unfold set_entry. destruct (rows !! i); [apply length_insert | done].
Qed.


Lemma entry_bump_eq rows i j v d :
  entry rows i j = Some v -> entry (bump rows i j d) i j = Some (v + d)%R.
Proof.
  intros H. unfold bump. rewrite H. by eapply entry_set_entry_eq.
Qed.

(** ** Running the primitives *)

Lemma bind_Ok {A B} (m : M A) (f : A -> M B) st a st' :
  m st = (Ok a, st') -> bind m f st = f a st'.
Proof. unfold bind. by intros ->. Qed.

Lemma bind_Raise {A B} (m : M A) (f : A -> M B) st e st' :
  m st = (Raise e, st') -> bind m f st = (Raise e, st').
Proof. unfold bind. by intros ->. Qed.

Lemma lookup_fresh (h : list ndarray) a : (h ++ [a]) !! length h = Some a.
Proof. by apply list_lookup_middle. Qed.

Lemma insert_fresh (h : list ndarray) a b :
  <[length h := b]> (h ++ [a]) = h ++ [b].
Proof.
  replace (length h) with (length h + 0) by lia.
  by rewrite insert_app_r.
Qed.

Lemma copy_run l st a :
  heap st !! l = Some a ->
  copy l st = (Ok (length (heap st)), mkState (heap st ++ [a]) (calls st)).
Proof. intros H. unfold copy, bind, deref, alloc. by rewrite H. Qed.

Lemma getitem2_run l i j st rows v :
  heap st !! l = Some (Array2 rows) -> entry rows i j = Some v ->
  getitem2 l i j st = (Ok v, st).
Proof. intros H E. unfold getitem2, bind, deref. by rewrite H, E. Qed.

Lemma getitem2_out_of_range l i j st rows :
  heap st !! l = Some (Array2 rows) -> entry rows i j = None ->
  getitem2 l i j st = (Raise IndexError, st).
Proof. intros H E. unfold getitem2, bind, deref. by rewrite H, E. Qed.

Lemma setitem2_run l i j v st rows v0 :
  heap st !! l = Some (Array2 rows) -> entry rows i j = Some v0 ->
  setitem2 l i j v st =
    (Ok tt, mkState (<[l := Array2 (set_entry rows i j v)]> (heap st))
                    (calls st)).
Proof. intros H E. unfold setitem2, bind, deref, store. by rewrite H, E. Qed.

Lemma call_run q x l st a :
  heap st !! l = Some a ->
  call q x l st =
    match q x a with
    | inr v => (Ok v, mkState (heap st) (calls st ++ [(x, a)]))
    | inl e => (Raise e, mkState (heap st) (calls st ++ [(x, a)]))
    end.
Proof. intros H. unfold call, bind, deref. rewrite H. by destruct (q x a). Qed.

(** ** One shifted entry *)

(** What [parameter_shift_term] does when entry [(i, j)] exists: one
    private copy is added to the heap, the oracle is called on it twice,
    first with the entry at [v + PI / 2], then at [v + PI / 2 - PI]. *)
Lemma parameter_shift_term_run q p x i j st rows v :
  heap st !! p = Some (Array2 rows) -> entry rows i j = Some v ->
  parameter_shift_term q p x i j st =
    let up := Array2 (set_entry rows i j (v + PI / 2)) in
    let down := Array2 (set_entry rows i j (v + PI / 2 - PI)) in
    match q x up with
    | inl e =>
        (Raise e, mkState (heap st ++ [up]) (calls st ++ [(x, up)]))
    | inr f =>
        match q x down with
        | inl e =>
            (Raise e, mkState (heap st ++ [down])
                              (calls st ++ [(x, up); (x, down)]))
        | inr b =>
            (Ok (0.5 * (f - b))%R,
             mkState (heap st ++ [down]) (calls st ++ [(x, up); (x, down)]))
        end
    end.
Proof.
  intros Hp Hv.
  pose proof (entry_set_entry_eq rows i j v (v + PI / 2) Hv) as Hup.
  unfold parameter_shift_term, copy, iadd2, isub2, getitem2, setitem2, call,
    store, bind, deref, alloc, ret, raise.
  rewrite Hp. cbn [heap calls]. rewrite lookup_fresh, Hv.
  cbn [heap calls]. rewrite lookup_fresh, Hv. cbn [heap calls].
  rewrite insert_fresh, lookup_fresh.
  destruct (q x (Array2 (set_entry rows i j (v + PI / 2)))) as [e|f]; [done|].
  cbn [heap calls]. rewrite lookup_fresh, Hup. cbn [heap calls].
  rewrite lookup_fresh, Hup. cbn [heap calls].
  rewrite insert_fresh, lookup_fresh, set_entry_twice.
  cbn [heap calls]. rewrite <- !app_assoc. simpl.
  by destruct (q x (Array2 (set_entry rows i j (v + PI / 2 - PI)))).
Qed.

(** ** Frame: what a program leaves alone *)

Section Keeps.
Context {A B : Type}.

Lemma keeps_ret n (a : A) (post : A -> Prop) : post a -> keeps n (ret a) post.
Proof. intros Ha st Hn. simpl. split_and!; [done|done|]. by intros ? [= <-]. Qed.

Lemma keeps_raise n e (post : A -> Prop) : keeps n (raise e) post.
Proof. intros st Hn. simpl. split_and!; done. Qed.

Lemma keeps_weaken n (m : M A) (P Q : A -> Prop) :
  keeps n m P -> (forall a, P a -> Q a) -> keeps n m Q.
Proof.
  intros Hm HPQ st Hn. destruct (Hm st Hn) as (H1 & H2 & H3).
  split_and!; [done|done|]. intros a Ha. auto.
Qed.

Lemma keeps_bind n (m : M A) (f : A -> M B) P Q :
  keeps n m P -> (forall a, P a -> keeps n (f a) Q) ->
  keeps n (bind m f) Q.
Proof.
  intros Hm Hf st Hn. destruct (Hm st Hn) as (H1 & H2 & H3).
  unfold bind. destruct (m st) as [[a|e] st'] eqn:E; simpl in *.
  - destruct (Hf a (H3 a eq_refl) st' ltac:(lia)) as (G1 & G2 & G3).
    split_and!; [|lia|done]. intros l Hl. by rewrite G1, H1.
  - split_and!; done.
Qed.
End Keeps.

Lemma keeps_for_each {A} n (l : list A) (body : A -> M unit) :
  (forall a, keeps n (body a) (fun _ => True)) ->
  keeps n (for_each l body) (fun _ => True).
Proof.
  intros Hb. induction l as [|a l IH]; simpl.
  - by apply keeps_ret.
  - eapply keeps_bind; [apply Hb|]. intros _ _. apply IH.
Qed.

Lemma keeps_alloc n a : keeps n (alloc a) (fun l => n <= l).
Proof.
  intros st Hn. unfold alloc. simpl. split_and!.
  - intros l Hl. apply lookup_app_l. lia.
  - rewrite length_app. lia.
  - by intros ? [= <-].
Qed.

Lemma keeps_deref n l : keeps n (deref l) (fun _ => True).
Proof.
  intros st Hn. unfold deref. destruct (heap st !! l); simpl; split_and!; done.
Qed.

Lemma keeps_store n l a : n <= l -> keeps n (store l a) (fun _ => True).
Proof.
  intros Hl st Hn. unfold store. simpl. split_and!; [|by rewrite length_insert|done].
  intros l' Hl'. apply list_lookup_insert_ne. lia.
Qed.

Lemma keeps_copy n l : keeps n (copy l) (fun l' => n <= l').
Proof.
  eapply keeps_bind; [apply keeps_deref|]. intros a _. apply keeps_alloc.
Qed.

Lemma keeps_zeros_like n p : keeps n (zeros_like p) (fun l' => n <= l').
Proof.
  destruct p as [l|rows]; simpl; [|apply keeps_alloc].
  eapply keeps_bind; [apply keeps_deref|]. intros a _. apply keeps_alloc.
Qed.

Lemma keeps_len n l : keeps n (len l) (fun _ => True).
Proof.
  eapply keeps_bind; [apply keeps_deref|].
  intros [k|rows|rows] _; by apply keeps_ret.
Qed.

Lemma keeps_len_item n l k : keeps n (len_item l k) (fun _ => True).
Proof.
  eapply keeps_bind; [apply keeps_deref|]. intros [m|rows|rows] _.
  - case_decide; apply keeps_raise.
  - destruct (rows !! k); [by apply keeps_ret | apply keeps_raise].
  - destruct (rows !! k); [by apply keeps_ret | apply keeps_raise].
Qed.

Lemma keeps_getitem2 n l i j : keeps n (getitem2 l i j) (fun _ => True).
Proof.
  eapply keeps_bind; [apply keeps_deref|]. intros [m|rows|rows] _.
  - apply keeps_raise.
  - destruct (entry rows i j); [by apply keeps_ret | apply keeps_raise].
  - destruct (ientry rows i j); [by apply keeps_ret | apply keeps_raise].
Qed.

Lemma keeps_setitem2 n l i j v :
  n <= l -> keeps n (setitem2 l i j v) (fun _ => True).
Proof.
  intros Hl. eapply keeps_bind; [apply keeps_deref|].
  intros [m|rows|rows] _.
  - apply keeps_raise.
  - destruct (entry rows i j); [by apply keeps_store | apply keeps_raise].
  - destruct (ientry rows i j); [by apply keeps_store | apply keeps_raise].
Qed.

Lemma keeps_call n q x l : keeps n (call q x l) (fun _ => True).
Proof.
  eapply keeps_bind; [apply keeps_deref|]. intros a _ st Hn.
  destruct (q x a); simpl; split_and!; done.
Qed.

Lemma keeps_parameter_shift_term n q p x i j :
  keeps n (parameter_shift_term q p x i j) (fun _ => True).
Proof.
  unfold parameter_shift_term, iadd2, isub2.
  eapply keeps_bind; [apply keeps_copy|]. intros s Hs.
  eapply keeps_bind.
  { eapply keeps_bind; [apply keeps_getitem2|].
    intros v _. by apply keeps_setitem2. }
  intros _ _. eapply keeps_bind; [apply keeps_call|]. intros f _.
  eapply keeps_bind.
  { eapply keeps_bind; [apply keeps_getitem2|].
    intros v _. by apply keeps_setitem2. }
  intros _ _. eapply keeps_bind; [apply keeps_call|]. intros b _.
  by apply keeps_ret.
Qed.

Lemma keeps_parameter_shift n w q params x :
  keeps n (parameter_shift w q params x) (fun g => n <= g).
Proof.
  unfold parameter_shift.
  eapply keeps_bind; [apply keeps_zeros_like|]. intros g Hg.
  eapply keeps_bind; [apply keeps_len|]. intros L _.
  eapply keeps_bind; [|intros _ _; by apply keeps_ret].
  apply keeps_for_each. intros i.
  eapply keeps_bind; [apply keeps_len_item|]. intros W _.
  apply keeps_for_each. intros j.
  eapply keeps_bind; [apply keeps_parameter_shift_term|]. intros v _.
  by apply keeps_setitem2.
Qed.

(** ** Oracle failures *)

Lemma stops_at_failure_nil {A} q (out : outcome A) : stops_at_failure q out [].
Proof. intros k c e H. by rewrite lookup_nil in H. Qed.

(** A program that does not call the oracle. *)
Lemma fail_fast_silent {A} q (m : M A) :
  (forall st, calls (m st).2 = calls st) -> fail_fast q m.
Proof.
  intros H st. exists []. rewrite app_nil_r.
  split; [apply H | apply stops_at_failure_nil].
Qed.

Lemma fail_fast_ret {A} q (a : A) : fail_fast q (ret a).
Proof. by apply fail_fast_silent. Qed.

Lemma fail_fast_raise {A} q e : fail_fast q (@raise A e).
Proof. by apply fail_fast_silent. Qed.

Lemma fail_fast_bind {A B} q (m : M A) (f : A -> M B) :
  fail_fast q m -> (forall a, fail_fast q (f a)) -> fail_fast q (bind m f).
Proof.
  intros Hm Hf st. destruct (Hm st) as (n1 & E1 & S1).
  unfold bind. destruct (m st) as [[a|e] st'] eqn:E; simpl in *.
  - destruct (Hf a st') as (n2 & E2 & S2). exists (n1 ++ n2).
    split; [by rewrite E2, E1, app_assoc|].
    intros k c e Hk Hq. apply lookup_app_Some in Hk as [Hk|[Hlen Hk]].
    + by destruct (S1 k c e Hk Hq) as [? _].
    + destruct (S2 _ c e Hk Hq) as [-> Hl]. split; [done|].
      rewrite length_app. lia.
  - exists n1. split; [done|]. intros k c e' Hk Hq.
    by destruct (S1 k c e' Hk Hq) as [[= ->] ?].
Qed.

Lemma fail_fast_for_each {A} q (l : list A) (body : A -> M unit) :
  (forall a, fail_fast q (body a)) -> fail_fast q (for_each l body).
Proof.
  intros Hb. induction l as [|a l IH]; simpl.
  - apply fail_fast_ret.
  - apply fail_fast_bind; [apply Hb | intros _; apply IH].
Qed.

Lemma fail_fast_deref q l : fail_fast q (deref l).
Proof.
  apply fail_fast_silent. intros st. unfold deref.
  by destruct (heap st !! l).
Qed.

Lemma fail_fast_alloc q a : fail_fast q (alloc a).
Proof. by apply fail_fast_silent. Qed.

Lemma fail_fast_store q l a : fail_fast q (store l a).
Proof. by apply fail_fast_silent. Qed.

Lemma fail_fast_copy q l : fail_fast q (copy l).
Proof.
  apply fail_fast_bind; [apply fail_fast_deref | intros; apply fail_fast_alloc].
Qed.

Lemma fail_fast_zeros_like q p : fail_fast q (zeros_like p).
Proof.
  destruct p; simpl; [|apply fail_fast_alloc].
  apply fail_fast_bind; [apply fail_fast_deref | intros; apply fail_fast_alloc].
Qed.

Lemma fail_fast_len q l : fail_fast q (len l).
Proof.
  apply fail_fast_bind; [apply fail_fast_deref|].
  intros [n|rows|rows]; apply fail_fast_ret.
Qed.

Lemma fail_fast_len_item q l k : fail_fast q (len_item l k).
Proof.
  apply fail_fast_bind; [apply fail_fast_deref|]. intros [n|rows|rows].
  - case_decide; apply fail_fast_raise.
  - destruct (rows !! k); [apply fail_fast_ret | apply fail_fast_raise].
  - destruct (rows !! k); [apply fail_fast_ret | apply fail_fast_raise].
Qed.

Lemma fail_fast_getitem2 q l i j : fail_fast q (getitem2 l i j).
Proof.
  apply fail_fast_bind; [apply fail_fast_deref|]. intros [n|rows|rows].
  - apply fail_fast_raise.
  - destruct (entry rows i j); [apply fail_fast_ret | apply fail_fast_raise].
  - destruct (ientry rows i j); [apply fail_fast_ret | apply fail_fast_raise].
Qed.

Lemma fail_fast_setitem2 q l i j v : fail_fast q (setitem2 l i j v).
Proof.
  apply fail_fast_bind; [apply fail_fast_deref|]. intros [n|rows|rows].
  - apply fail_fast_raise.
  - destruct (entry rows i j); [apply fail_fast_store | apply fail_fast_raise].
  - destruct (ientry rows i j); [apply fail_fast_store | apply fail_fast_raise].
Qed.

(** The one place where the oracle is called: the call is logged, and its
    failure is the outcome. *)
Lemma fail_fast_call q x l : fail_fast q (call q x l).
Proof.
  intros st. unfold call, bind, deref.
  destruct (heap st !! l) as [a|]; simpl.
  - exists [(x, a)]. split; [by destruct (q x a)|].
    intros [|k] c e Hk Hq; simpl in Hk; [|by rewrite lookup_nil in Hk].
    injection Hk as <-. simpl in Hq. by rewrite Hq.
  - exists []. rewrite app_nil_r. split; [done | apply stops_at_failure_nil].
Qed.

Lemma fail_fast_parameter_shift_term q p x i j :
  fail_fast q (parameter_shift_term q p x i j).
Proof.
  unfold parameter_shift_term, iadd2, isub2.
  repeat first
    [ apply fail_fast_copy | apply fail_fast_getitem2
    | apply fail_fast_setitem2 | apply fail_fast_call | apply fail_fast_ret
    | apply fail_fast_bind; [|intros ?] ].
Qed.

Lemma fail_fast_parameter_shift w q params x :
  fail_fast q (parameter_shift w q params x).
Proof.
  unfold parameter_shift.
  repeat first
    [ apply fail_fast_zeros_like | apply fail_fast_len
    | apply fail_fast_len_item | apply fail_fast_parameter_shift_term
    | apply fail_fast_setitem2 | apply fail_fast_ret
    | apply fail_fast_for_each; intros ?
    | apply fail_fast_bind; [|intros ?] ].
Qed.

(** ** Shapes *)

Lemma has_shape_spec rows L W :
  has_shape rows L W = true <-> map length rows = replicate L W.
Proof.
  unfold has_shape. rewrite andb_true_iff, Nat.eqb_eq, forallb_forall.
  split.
  - intros [<- Hall]. induction rows as [|r rows IH]; [done|]. simpl.
    f_equal.
    + apply Nat.eqb_eq, Hall. by left.
    + apply IH. intros r' Hr'. apply Hall. by right.
  - intros H. split.
    + by rewrite <- (length_map length rows), H, length_replicate.
    + intros r Hr. apply Nat.eqb_eq.
      assert (length r ∈ replicate L W) as Hin.
      { rewrite <- H. apply list_elem_of_fmap. exists r.
        split; [done | by apply list_elem_of_In]. }
      by apply elem_of_replicate in Hin as [? _].
Qed.

Lemma has_shape_length rows L W : has_shape rows L W = true -> length rows = L.
Proof.
  intros H%has_shape_spec.
  by rewrite <- (length_map length rows), H, length_replicate.
Qed.

Lemma has_shape_row rows L W i r :
  has_shape rows L W = true -> rows !! i = Some r -> length r = W.
Proof.
  intros H%has_shape_spec Hr.
  assert (map length rows !! i = Some (length r)) as Hl
    by (by rewrite list_lookup_fmap, Hr).
  rewrite H in Hl. by apply lookup_replicate in Hl as [? _].
Qed.

Lemma has_shape_entry rows L W i j :
  has_shape rows L W = true -> i < L -> j < W -> is_Some (entry rows i j).
Proof.
  intros H Hi Hj.
  destruct (lookup_lt_is_Some_2 rows i) as [r Hr].
  { by rewrite (has_shape_length _ _ _ H). }
  destruct (lookup_lt_is_Some_2 r j) as [v Hv].
  { by rewrite (has_shape_row _ _ _ _ _ H Hr). }
  exists v. apply entry_Some. eauto.
Qed.

Lemma has_shape_zero_rows rows L W :
  has_shape (zero_rows rows) L W = has_shape rows L W.
Proof.
  unfold has_shape, zero_rows. rewrite length_map. f_equal.
  induction rows as [|r rows IH]; [done|]. simpl.
  by rewrite length_map, IH.
Qed.

Lemma has_shape_set_entry rows L W i j v :
  has_shape rows L W = true -> has_shape (set_entry rows i j v) L W = true.
Proof. rewrite !has_shape_spec. by rewrite set_entry_lengths. Qed.

Lemma has_shape_rectangular rows L W :
  has_shape rows L W = true -> rectangular rows = true.
Proof.
  intros H. destruct rows as [|r rows]; [done|]. simpl.
  apply forallb_forall. intros r' Hr'. apply Nat.eqb_eq.
  apply list_elem_of_In, list_elem_of_lookup in Hr' as [i Hi].
  rewrite (has_shape_row _ _ _ (S i) r' H Hi).
  by rewrite (has_shape_row _ _ _ 0 r H eq_refl).
Qed.

Lemma covers_entry rows L W i j :
  covers rows L W = true -> i < L -> j < W -> is_Some (entry rows i j).
Proof.
  unfold covers. rewrite forallb_forall. intros H Hi Hj.
  specialize (H i). rewrite in_seq in H. specialize (H ltac:(lia)).
  destruct (rows !! i) as [r|] eqn:Hr; [|done].
  apply Nat.leb_le in H.
  destruct (lookup_lt_is_Some_2 r j) as [v Hv]; [lia|].
  exists v. apply entry_Some. eauto.
Qed.

Lemma has_shape_covers rows L W :
  has_shape rows L W = true -> covers rows L W = true.
Proof.
  intros H. unfold covers. apply forallb_forall. intros i Hi%in_seq.
  destruct (lookup_lt_is_Some_2 rows i) as [r Hr].
  { rewrite (has_shape_length _ _ _ H). lia. }
  rewrite Hr. apply Nat.leb_le. by rewrite (has_shape_row _ _ _ _ _ H Hr).
Qed.

(** ** Loops that run to their end *)

Lemma for_each_seq_inv (I : nat -> state -> Prop) (body : nat -> M unit)
    (a n : nat) :
  (forall k st, a <= k < a + n -> I k st ->
     exists st', body k st = (Ok tt, st') /\ I (S k) st') ->
  forall st, I a st ->
    exists st', for_each (seq a n) body st = (Ok tt, st') /\ I (a + n) st'.
Proof.
  revert a. induction n as [|n IH]; intros a Hb st Ha.
  - exists st. rewrite Nat.add_0_r. by split.
  - simpl. destruct (Hb a st ltac:(lia) Ha) as (st1 & E1 & H1).
    destruct (IH (S a) ltac:(intros; apply Hb; [lia|done]) st1 H1)
      as (st2 & E2 & H2).
    exists st2. split.
    + by rewrite (bind_Ok _ _ _ _ _ E1).
    + by replace (a + S n) with (S a + n) by lia.
Qed.

Lemma for_each_range_inv (I : nat -> state -> Prop) (body : nat -> M unit)
    (n : nat) :
  (forall k st, k < n -> I k st ->
     exists st', body k st = (Ok tt, st') /\ I (S k) st') ->
  forall st, I 0 st ->
    exists st', for_each (range n) body st = (Ok tt, st') /\ I n st'.
Proof.
  intros Hb st H0.
  apply (for_each_seq_inv I body 0 n); [|done].
  intros k st' Hk. apply Hb. lia.
Qed.

(** ** The gradient loop with an oracle that returns *)

Lemma shift_estimate_unfold f x rows i j v :
  entry rows i j = Some v ->
  (0.5 * (f x (Array2 (set_entry rows i j (v + PI / 2)))
          - f x (Array2 (set_entry rows i j (v + PI / 2 - PI)))))%R
  = shift_estimate f x rows i j.
Proof.
  intros Hv. unfold shift_estimate, bump. rewrite Hv.
  by replace (v + PI / 2 - PI)%R with (v + - (PI / 2))%R by lra.
Qed.

Section Gradient.
Variables (w : loc) (f : list R -> ndarray -> R) (x : list R).
Variables (st0 : state) (wrows : list (list R)) (L W : nat).
Hypothesis Hw : heap st0 !! w = Some (Array2 wrows).
Hypothesis Hcov : covers wrows L W = true.

Lemma body_progress k m st :
  k < L -> m < W -> progress st0 f x wrows L W k m st ->
  exists st',
    (g <- parameter_shift_term (pure_oracle f) w x k m ;;
     setitem2 (length (heap st0)) k m g) st = (Ok tt, st')
    /\ progress st0 f x wrows L W k (S m) st'.
Proof.
  intros Hk Hm (Hfr & (G & HG & Hsh & Hent) & Hc).
  assert (heap st !! w = Some (Array2 wrows)) as Hw'.
  { rewrite Hfr; [done | by eapply lookup_lt_Some]. }
  destruct (covers_entry _ _ _ k m Hcov Hk Hm) as [v Hv].
  destruct (has_shape_entry _ _ _ k m Hsh Hk Hm) as [g0 Hg0].
  pose proof (lookup_lt_Some _ _ _ HG) as Hlt.
  eexists. split.
  - erewrite bind_Ok.
    2:{ rewrite (parameter_shift_term_run _ _ _ _ _ _ _ _ Hw' Hv).
        unfold pure_oracle. cbv zeta. reflexivity. }
    erewrite setitem2_run; [reflexivity| |exact Hg0].
    simpl. by apply lookup_app_l_Some.
  - unfold progress. simpl. split_and!.
    + intros l Hl. rewrite list_lookup_insert_ne by lia.
      rewrite lookup_app_l by lia. by apply Hfr.
    + eexists. split_and!.
      * apply list_lookup_insert_eq. rewrite length_app. lia.
      * by apply has_shape_set_entry.
      * intros i j Hij. destruct (decide ((k, m) = (i, j))) as [[= <- <-]|Hne].
        -- erewrite entry_set_entry_eq by done.
           by rewrite shift_estimate_unfold.
        -- rewrite entry_set_entry_ne by done. apply Hent.
           destruct Hij as [?|[-> ?]]; [by left|right].
           split; [done|]. destruct (decide (j = m)) as [->|]; [done|lia].
    + rewrite length_app, Hc. simpl. lia.
Qed.

Lemma row_progress k st :
  k < L -> progress st0 f x wrows L W k 0 st ->
  exists st',
    (m <- len_item (length (heap st0)) 0 ;;
     for_each (range m) (fun j =>
       g <- parameter_shift_term (pure_oracle f) w x k j ;;
       setitem2 (length (heap st0)) k j g)) st = (Ok tt, st')
    /\ progress st0 f x wrows L W (S k) 0 st'.
Proof.
  intros Hk Hp.
  assert (len_item (length (heap st0)) 0 st = (Ok W, st)) as Hlen.
  { destruct Hp as (_ & (G & HG & Hsh & _) & _).
    unfold len_item, bind, deref. rewrite HG.
    destruct (lookup_lt_is_Some_2 G 0) as [r Hr].
    { rewrite (has_shape_length _ _ _ Hsh). lia. }
    rewrite Hr. by rewrite (has_shape_row _ _ _ _ _ Hsh Hr). }
  rewrite (bind_Ok _ _ _ _ _ Hlen).
  destruct (for_each_range_inv (progress st0 f x wrows L W k)
              (fun j => g <- parameter_shift_term (pure_oracle f) w x k j ;;
                        setitem2 (length (heap st0)) k j g) W)
    with (st := st) as (st' & E & (Hfr & (G & HG & Hsh & Hent) & Hc)).
  { intros m st1 Hm. by apply body_progress. }
  { done. }
  exists st'. split; [done|]. split_and!; [done| |].
  - exists G. split_and!; [done|done|]. intros i j Hij. apply Hent.
    destruct Hij as [[Hi Hj]|[_ Hj]]; [|lia].
    destruct (decide (i = k)) as [->|]; [by right | left; lia].
  - rewrite Hc. lia.
Qed.

Lemma rows_progress st :
  progress st0 f x wrows L W 0 0 st ->
  exists st',
    for_each (range L) (fun i =>
      m <- len_item (length (heap st0)) 0 ;;
      for_each (range m) (fun j =>
        g <- parameter_shift_term (pure_oracle f) w x i j ;;
        setitem2 (length (heap st0)) i j g)) st = (Ok tt, st')
    /\ progress st0 f x wrows L W L 0 st'.
Proof.
  apply (for_each_range_inv (fun k => progress st0 f x wrows L W k 0)).
  intros k st1 Hk. by apply row_progress.
Qed.
End Gradient.

Lemma zeros_like_run p st a :
  array_of st p = Some a ->
  zeros_like p st =
    (Ok (length (heap st)), mkState (heap st ++ [zeros_of a]) (calls st)).
Proof.
  destruct p as [l|rows]; simpl.
  - intros H. unfold bind, deref, alloc. by rewrite H.
  - by intros [= <-].
Qed.

Lemma len_run l st a :
  heap st !! l = Some a ->
  len l st = (Ok match a with
                 | Array1 n => n
                 | Array2 rows => length rows
                 | Array2i rows => length rows
                 end, st).
Proof. intros H. unfold len, bind, deref. rewrite H. by destruct a. Qed.

(** What [parameter_shift] computes when the oracle returns and [w]
    covers the shape of [params]: a new array of that shape whose entries
    are the shift estimates taken at [w], after two oracle calls per entry,
    with every earlier object left as it was. *)
Lemma parameter_shift_run w f x st wrows params prows L W :
  heap st !! w = Some (Array2 wrows) ->
  array_of st params = Some (Array2 prows) ->
  has_shape prows L W = true ->
  covers wrows L W = true ->
  exists st' G,
    parameter_shift w (pure_oracle f) params x st
      = (Ok (length (heap st)), st')
    /\ heap st' !! length (heap st) = Some (Array2 G)
    /\ has_shape G L W = true
    /\ (forall i j, i < L -> j < W ->
          entry G i j = Some (shift_estimate f x wrows i j))
    /\ length (calls st') = length (calls st) + 2 * L * W
    /\ (forall l, l < length (heap st) -> heap st' !! l = heap st !! l).
Proof.
  intros Hw Hp Hsh Hcov. unfold parameter_shift.
  rewrite (bind_Ok _ _ _ _ _ (zeros_like_run _ _ _ Hp)).
  erewrite bind_Ok; [|apply len_run; apply lookup_fresh].
  simpl zeros_of. cbv iota. unfold zero_rows at 1. rewrite length_map.
  rewrite (has_shape_length _ _ _ Hsh).
  destruct (rows_progress w f x st wrows L W Hw Hcov
              (mkState (heap st ++ [Array2 (zero_rows prows)]) (calls st)))
    as (st' & E & (Hfr & (G & HG & HshG & Hent) & Hc)).
  { split_and!.
    - intros l Hl. simpl. by apply lookup_app_l.
    - exists (zero_rows prows). split_and!.
      + apply lookup_fresh.
      + by rewrite has_shape_zero_rows.
      + intros i j [[? _]|[_ ?]]; lia.
    - simpl. lia. }
  exists st', G. split_and!; try done.
  - by rewrite (bind_Ok _ _ _ _ _ E).
  - intros i j Hi Hj. apply Hent. by left.
  - rewrite Hc. lia.
Qed.

(** * The claims *)

(** ** [num_evals] *)

(** C4.  For non-negative [n_params] and [n_steps], [num_evals] returns
    exactly [2 * n_params * n_steps]; it returns 0 when either argument is
    0, whatever the non-negative other one [k], and 338 on [(13, 13)]. *)
Theorem num_evals_count (n_params n_steps k : Z) (st : state) :
  (0 <= n_params)%Z -> (0 <= n_steps)%Z -> (0 <= k)%Z ->
  num_evals n_params n_steps st = (Ok (2 * n_params * n_steps)%Z, st)
  /\ num_evals 0 k st = (Ok 0%Z, st)
  /\ num_evals k 0 st = (Ok 0%Z, st)
  /\ num_evals 13 13 st = (Ok 338%Z, st).
Proof.
  intros _ _ _. unfold num_evals, ret. split_and!; try done.
  do 2 f_equal. lia.
Qed.

Lemma num_evals_count_witness :
  num_evals 3 4 nb_state = (Ok (2 * 3 * 4)%Z, nb_state)
  /\ num_evals 0 5 nb_state = (Ok 0%Z, nb_state)
  /\ num_evals 5 0 nb_state = (Ok 0%Z, nb_state)
  /\ num_evals 13 13 nb_state = (Ok 338%Z, nb_state).
Proof. apply (num_evals_count 3 4 5 nb_state); lia. Defined.

(** C5, as the code has it.  [num_evals] validates nothing: for all
    integers, negative ones included, it returns [2 * n_params * n_steps]
    and leaves the state as it was.  It never raises. *)
Theorem num_evals_total (n_params n_steps : Z) (st : state) :
  num_evals n_params n_steps st = (Ok (2 * n_params * n_steps)%Z, st).
Proof. reflexivity. Qed.

(** C5 fails as stated: with [n_steps = -1] the call returns the negative
    count [-26] instead of raising [ValueError]. *)
Lemma num_evals_negative_steps :
  (num_evals 13 (-1) nb_state).1 = Ok (-26)%Z
  /\ (num_evals 13 (-1) nb_state).1 <> Raise ValueError.
Proof. split; [reflexivity | discriminate]. Qed.

(** ** [parameter_shift_term] *)

(** C7, in exact arithmetic.  With the code's float64 numbers taken as
    real numbers, [parameter_shift_term] on a single parameter [theta] and
    an oracle [f] calls [f] at [theta + PI/2], then at [theta - PI/2], and
    returns [0.5 * (f (theta + PI/2) - f (theta - PI/2))]; for [f = cos]
    that is the derivative [- sin theta] for every real [theta], 0 at
    [theta = 0] and -1 at [theta = PI/2].  The tensor [[theta]] is the
    newest object of an arbitrary heap [h]. *)
Theorem parameter_shift_term_cos (f : R -> R) (theta : R) (x : list R)
    (h : list ndarray) (c : list (list R * ndarray)) :
  let run q t :=
    parameter_shift_term q (length h) x 0 0
      (mkState (h ++ [Array2 [[t]]]) c) in
  (run (single_parameter f) theta).1
    = Ok (0.5 * (f (theta + PI / 2) - f (theta - PI / 2)))%R
  /\ calls (run (single_parameter f) theta).2
     = c ++ [(x, Array2 [[(theta + PI / 2)%R]]);
             (x, Array2 [[(theta - PI / 2)%R]])]
  /\ cos_oracle = single_parameter cos
  /\ (run cos_oracle theta).1 = Ok (- sin theta)%R
  /\ (0.5 * (cos (theta + PI / 2) - cos (theta - PI / 2)) = - sin theta)%R
  /\ (run cos_oracle 0%R).1 = Ok 0%R
  /\ (run cos_oracle (PI / 2)%R).1 = Ok (- 1)%R.
Proof.
  assert (forall t, cos (t + PI / 2) = - sin t)%R as Hup.
  { intros t. rewrite cos_plus, cos_PI2, sin_PI2. lra. }
  assert (forall t, cos (t - PI / 2) = sin t)%R as Hdown.
  { intros t. rewrite cos_minus, cos_PI2, sin_PI2. lra. }
  assert (forall g t,
            (parameter_shift_term (single_parameter g) (length h) x 0 0
               (mkState (h ++ [Array2 [[t]]]) c)).1
            = Ok (0.5 * (g (t + PI / 2) - g (t - PI / 2)))%R
            /\ calls (parameter_shift_term (single_parameter g) (length h)
                        x 0 0 (mkState (h ++ [Array2 [[t]]]) c)).2
               = c ++ [(x, Array2 [[(t + PI / 2)%R]]);
                       (x, Array2 [[(t - PI / 2)%R]])]) as Hrun.
  { intros g t.
    rewrite (parameter_shift_term_run (single_parameter g) (length h) x 0 0
               (mkState (h ++ [Array2 [[t]]]) c) [[t]] t
               (lookup_fresh h _) eq_refl).
    simpl.
    by replace (t + PI / 2 - PI)%R with (t - PI / 2)%R by lra. }
  assert (forall t,
            (parameter_shift_term cos_oracle (length h) x 0 0
               (mkState (h ++ [Array2 [[t]]]) c)).1 = Ok (- sin t)%R)
    as Hcos.
  { intros t. change cos_oracle with (single_parameter cos).
    rewrite (proj1 (Hrun cos t)). f_equal. rewrite Hup, Hdown. lra. }
  cbv zeta. split_and!.
  - apply Hrun.
  - apply Hrun.
  - reflexivity.
  - apply Hcos.
  - rewrite Hup, Hdown. lra.
  - rewrite Hcos, sin_0. do 2 f_equal. lra.
  - by rewrite Hcos, sin_PI2.
Qed.

(** ** [parameter_shift] *)


(** C8.  The oracle calls a run of [parameter_shift] adds to the log are
    such that, if the oracle fails on one of them, that call is the last
    one made (no retry, no further call) and the run ends by raising the
    oracle's own exception, so no gradient array is returned. *)
Theorem parameter_shift_oracle_failure (w : loc) (q : oracle)
    (params : arraylike) (x : list R) (st : state) :
  exists new,
    calls (parameter_shift w q params x st).2 = calls st ++ new
    /\ forall k c e,
         new !! k = Some c -> q c.1 c.2 = inl e ->
         (parameter_shift w q params x st).1 = Raise e
         /\ length new = S k.
Proof. apply fail_fast_parameter_shift. Qed.

Lemma parameter_shift_oracle_failure_witness :
  (parameter_shift 0 broken_oracle (Ref 0) nb_x nb_state).1
    = Raise DeviceError
  /\ length (calls (parameter_shift 0 broken_oracle (Ref 0) nb_x nb_state).2)
    = 1.
Proof.
  destruct (parameter_shift_oracle_failure 0 broken_oracle (Ref 0) nb_x
              nb_state) as (new & E & H).
  simpl app in E. rewrite E.
  destruct new as [|c new].
  - discriminate E.
  - destruct (H 0 c DeviceError) as [Hout Hlen];
      [reflexivity | reflexivity | by split].
Defined.

Lemma for_each_skip {A} (l : list A) (body : A -> M unit) st :
  (forall a, body a st = (Ok tt, st)) -> for_each l body st = (Ok tt, st).
Proof.
  intros Hb. induction l as [|a l IH]; [done|].
  simpl. by rewrite (bind_Ok _ _ _ _ _ (Hb a)).
Qed.

(** C10.  For an empty parameter tensor (no rows, or rows of which the
    first is empty) [parameter_shift] returns a new array of zeros of the
    shape of its argument, without an oracle call and without raising. *)
Theorem parameter_shift_empty (w : loc) (q : oracle) (params : arraylike)
    (x : list R) (st : state) (rows : list (list R)) :
  array_of st params = Some (Array2 rows) ->
  hd [] rows = [] ->
  parameter_shift w q params x st
    = (Ok (length (heap st)),
       mkState (heap st ++ [Array2 (zero_rows rows)]) (calls st))
  /\ map length (zero_rows rows) = map length rows.
Proof.
  intros Hp Hhd. split.
  - unfold parameter_shift.
    rewrite (bind_Ok _ _ _ _ _ (zeros_like_run _ _ _ Hp)).
    erewrite bind_Ok; [|apply len_run; apply lookup_fresh].
    erewrite bind_Ok; [reflexivity|].
    destruct rows as [|r rows]; [done|]. simpl in Hhd. subst r.
    apply for_each_skip. intros i.
    unfold len_item, bind, deref. simpl heap. by rewrite lookup_fresh.
  - unfold zero_rows. rewrite <- list_fmap_compose. apply list_fmap_ext.
    intros _ r _. simpl. apply length_map.
Qed.

Lemma parameter_shift_empty_witness :
  parameter_shift 0 cos_oracle (Nested [[]; []]) nb_x nb_state
  = (Ok 1, mkState [Array2 nb_w; Array2 [[]; []]] []).
Proof.
  apply (parameter_shift_empty 0 cos_oracle (Nested [[]; []]) nb_x nb_state
           [[]; []]); reflexivity.
Defined.

(** C6, as the code has it.  [parameter_shift] checks no shape.  Rows of
    unequal length can only come as a nested list; numpy 1.19 makes a
    1-D array of them, and the first [len(gradients[0])] raises
    [TypeError], before any oracle call, whatever the oracle, the data
    vector and [w]. *)
Theorem parameter_shift_ragged (w : loc) (q : oracle) (x : list R)
    (st : state) (rows : list (list R)) :
  rectangular rows = false ->
  parameter_shift w q (Nested rows) x st
    = (Raise TypeError,
       mkState (heap st ++ [Array1 (length rows)]) (calls st)).
Proof.
  intros Hr. unfold parameter_shift.
  erewrite bind_Ok; [|by apply zeros_like_run].
  unfold as_array. rewrite Hr. simpl zeros_of.
  erewrite bind_Ok; [|apply len_run; apply lookup_fresh].
  cbv iota. destruct rows as [|r rows]; [done|].
  cbn [length range seq for_each].
  erewrite bind_Raise; [reflexivity|].
  erewrite bind_Raise; [reflexivity|].
  erewrite bind_Raise; [reflexivity|].
  unfold len_item, bind, deref. simpl heap. rewrite lookup_fresh.
  by rewrite decide_True by lia.
Qed.

Lemma parameter_shift_ragged_witness :
  parameter_shift 0 cos_oracle (Nested [[1]; [2; 3]]%R) nb_x nb_state
  = (Raise TypeError, mkState [Array2 nb_w; Array1 2] []).
Proof.
  apply (parameter_shift_ragged 0 cos_oracle nb_x nb_state
           [[1]; [2; 3]]%R).
  reflexivity.
Defined.

(** C6 fails as stated: on rows of lengths 1 and 2 the call raises
    [TypeError], not a [ShapeError]. *)
Lemma parameter_shift_ragged_not_ShapeError :
  (parameter_shift 0 cos_oracle (Nested [[1]; [2; 3]]%R) nb_x nb_state).1
    = Raise TypeError
  /\ (parameter_shift 0 cos_oracle (Nested [[1]; [2; 3]]%R) nb_x nb_state).1
    <> Raise ShapeError.
Proof. split; [reflexivity | discriminate]. Qed.

(** ** What holds of the code where the three claims below fail *)

(** No run of [parameter_shift] changes an object that existed before it:
    the caller's tensor and [w] are as they were, whatever the outcome. *)
Lemma parameter_shift_keeps_heap w q params x st l :
  l < length (heap st) ->
  heap (parameter_shift w q params x st).2 !! l = heap st !! l.
Proof.
  intros Hl.
  destruct (keeps_parameter_shift (length (heap st)) w q params x st)
    as (H & _); [done|]. by apply H.
Qed.

Lemma parameter_shift_term_out_of_range q p x i j st rows :
  heap st !! p = Some (Array2 rows) -> entry rows i j = None ->
  parameter_shift_term q p x i j st
    = (Raise IndexError, mkState (heap st ++ [Array2 rows]) (calls st)).
Proof.
  intros Hp Hv.
  unfold parameter_shift_term, copy, iadd2, getitem2, bind, deref, alloc,
    raise.
  rewrite Hp. cbn [heap calls]. by rewrite lookup_fresh, Hv.
Qed.

(** X17.  [parameter_shift_term] works on a private copy of the tensor it
    is given: the objects that existed before are unchanged, and both
    oracle calls see that tensor with entry [(i, j)] alone changed. *)
Lemma parameter_shift_term_private_copy q p x i j st rows :
  heap st !! p = Some (Array2 rows) ->
  (forall l, l < length (heap st) ->
     heap (parameter_shift_term q p x i j st).2 !! l = heap st !! l)
  /\ exists new,
       calls (parameter_shift_term q p x i j st).2 = calls st ++ new
       /\ forall c, c ∈ new ->
            exists a, c = (x, Array2 a)
              /\ forall i' j', (i, j) <> (i', j') ->
                   entry a i' j' = entry rows i' j'.
Proof.
  intros Hp. split.
  - intros l Hl.
    destruct (keeps_parameter_shift_term (length (heap st)) q p x i j st)
      as (H & _); [done|]. by apply H.
  - destruct (entry rows i j) as [v|] eqn:Hv.
    + rewrite (parameter_shift_term_run _ _ _ _ _ _ _ _ Hp Hv). cbv zeta.
      assert (forall d c, c ∈ [(x, Array2 (set_entry rows i j d))] ->
                exists a, c = (x, Array2 a)
                  /\ forall i' j', (i, j) <> (i', j') ->
                       entry a i' j' = entry rows i' j') as Hone.
      { intros d c ->%list_elem_of_singleton. eexists. split; [done|].
        intros i' j' Hne. by apply entry_set_entry_ne. }
      destruct (q x (Array2 (set_entry rows i j (v + PI / 2)))) as [e|f].
      { eexists. split; [done|]. apply Hone. }
      assert (forall c,
                c ∈ [(x, Array2 (set_entry rows i j (v + PI / 2)));
                     (x, Array2 (set_entry rows i j (v + PI / 2 - PI)))] ->
                exists a, c = (x, Array2 a)
                  /\ forall i' j', (i, j) <> (i', j') ->
                       entry a i' j' = entry rows i' j') as Htwo.
      { intros c [->|Hc]%elem_of_cons; [|by eapply Hone].
        eapply Hone. by apply list_elem_of_singleton. }
      destruct (q x (Array2 (set_entry rows i j (v + PI / 2 - PI))));
        eexists; (split; [done | apply Htwo]).
    + rewrite (parameter_shift_term_out_of_range _ _ _ _ _ _ _ Hp Hv).
      exists []. split; [by rewrite app_nil_r|].
      intros c Hc. by apply elem_of_nil in Hc.
Qed.

(** When the argument of [parameter_shift] is [w] itself, as in the
    notebook's one call, the returned array has the shape of the argument
    and holds at [(i, j)] the shift estimate of the argument, after
    [2 * L * W] oracle calls. *)
Lemma parameter_shift_at_w w f x st wrows L W :
  heap st !! w = Some (Array2 wrows) ->
  has_shape wrows L W = true ->
  exists st' G,
    parameter_shift w (pure_oracle f) (Ref w) x st
      = (Ok (length (heap st)), st')
    /\ heap st' !! length (heap st) = Some (Array2 G)
    /\ has_shape G L W = true
    /\ (forall i j, i < L -> j < W ->
          entry G i j = Some (shift_estimate f x wrows i j))
    /\ length (calls st') = length (calls st) + 2 * L * W.
Proof.
  intros Hw Hsh.
  destruct (parameter_shift_run w f x st wrows (Ref w) wrows L W Hw Hw Hsh
              (has_shape_covers _ _ _ Hsh))
    as (st' & G & E & HG & HshG & Hent & Hc & _).
  by exists st', G.
Qed.

(** The notebook's call: 12 oracle calls, a gradient of shape [(3, 2)]. *)
Lemma parameter_shift_notebook_call f :
  exists st' G,
    parameter_shift 0 (pure_oracle f) (Ref 0) nb_x nb_state = (Ok 1, st')
    /\ heap st' !! 1 = Some (Array2 G)
    /\ has_shape G 3 2 = true
    /\ length (calls st') = 12.
Proof.
  destruct (parameter_shift_at_w 0 f nb_x nb_state nb_w 3 2 eq_refl eq_refl)
    as (st' & G & E & HG & HshG & _ & Hc).
  exists st', G. split_and!; [exact E | exact HG | exact HshG | exact Hc].
Qed.

(** ** Where the code departs from the claims *)

(** C1.  The body of [parameter_shift] hands [w], not its argument, to
    [parameter_shift_term].  With [w] as in the notebook, a caller's tensor
    of zeros and the oracle that multiplies entries [(0, 0)] and [(0, 1)],
    entry [(0, 0)] of the returned array is [0.6 * PI], the estimate at
    [w], while the estimate at the caller's tensor is [0]. *)
Theorem parameter_shift_estimates_at_w :
  exists st' G,
    parameter_shift 0 (pure_oracle product_oracle) (Ref 1) nb_x two_tensors
      = (Ok 2, st')
    /\ heap st' !! 2 = Some (Array2 G)
    /\ entry G 0 0 = Some (0.6 * PI)%R
    /\ shift_estimate product_oracle nb_x zeros_3_2 0 0 = 0%R
    /\ (0.6 * PI)%R <> 0%R.
Proof.
  destruct (parameter_shift_run 0 product_oracle nb_x two_tensors nb_w
              (Ref 1) zeros_3_2 3 2 eq_refl eq_refl eq_refl eq_refl)
    as (st' & G & E & HG & _ & Hent & _).
  exists st', G. split_and!; [exact E | exact HG | | |].
  - rewrite (Hent 0 0) by lia. f_equal.
    unfold shift_estimate, bump, product_oracle, nb_w.
    cbn [entry set_entry lookup list_lookup mbind option_bind insert
         list_insert]. lra.
  - unfold shift_estimate, bump, product_oracle, zeros_3_2.
    cbn [entry set_entry lookup list_lookup mbind option_bind insert
         list_insert]. lra.
  - pose proof PI_RGT_0. lra.
Qed.

(** C2.  Because the entries are read from [w], a caller's tensor of
    shape [(4, 2)] makes the run index [w], of shape [(3, 2)], out of
    range: it raises [IndexError] after 12 oracle calls, where
    [2 * 4 * 2 = 16] calls and a gradient of shape [(4, 2)] are claimed. *)
Theorem parameter_shift_4_2_index_error :
  (parameter_shift 0 (pure_oracle product_oracle) (Ref 1) nb_x
     taller_tensor).1 = Raise IndexError
  /\ length (calls (parameter_shift 0 (pure_oracle product_oracle)
                      (Ref 1) nb_x taller_tensor).2) = 12
  /\ 12 <> 2 * 4 * 2.
Proof. split_and!; [reflexivity | reflexivity | lia]. Qed.

(** C3.  The private copy that is shifted is a copy of [w], not of the
    caller's tensor: in the first oracle call of the run (the shift of
    entry [(0, 0)]), entry [(0, 1)] of the working copy is [1.2], the value
    in [w], while the caller's tensor has [0] there. *)
Theorem parameter_shift_working_copy_of_w :
  exists a,
    calls (parameter_shift 0 (pure_oracle product_oracle) (Ref 1) nb_x
             two_tensors).2 !! 0 = Some (nb_x, Array2 a)
    /\ entry a 0 1 = Some 1.2%R
    /\ entry zeros_3_2 0 1 = Some 0%R
    /\ 1.2%R <> 0%R.
Proof.
  eexists. split_and!; [reflexivity|reflexivity|reflexivity|lra].
Qed.

(** * Further properties of the notebook's functions *)

(** ** [parameter_shift_term] *)

Lemma bump_Some rows i j v d :
  entry rows i j = Some v -> bump rows i j d = set_entry rows i j (v + d)%R.
Proof. intros H. unfold bump. by rewrite H. Qed.

Lemma shift_calls_unfold x rows i j v :
  entry rows i j = Some v ->
  [(x, Array2 (set_entry rows i j (v + PI / 2)));
   (x, Array2 (set_entry rows i j (v + PI / 2 - PI)))]
  = shift_calls x rows i j.
Proof.
  intros Hv. unfold shift_calls. rewrite !(bump_Some _ _ _ _ _ Hv).
  by replace (v + PI / 2 - PI)%R with (v + - (PI / 2))%R by lra.
Qed.

(** X1.  An index pair outside the tensor makes [parameter_shift_term]
    raise [IndexError] at its first update, before any oracle call; no
    object that existed before is changed. *)
Theorem parameter_shift_term_index_error (q : oracle) (p : loc)
    (x : list R) (i j : nat) (st : state) (rows : list (list R)) :
  heap st !! p = Some (Array2 rows) ->
  entry rows i j = None ->
  (parameter_shift_term q p x i j st).1 = Raise IndexError
  /\ calls (parameter_shift_term q p x i j st).2 = calls st
  /\ forall l, l < length (heap st) ->
       heap (parameter_shift_term q p x i j st).2 !! l = heap st !! l.
Proof.
  intros Hp Hv.
  rewrite (parameter_shift_term_out_of_range _ _ _ _ _ _ _ Hp Hv).
  split_and!; [reflexivity | reflexivity |].
  intros l Hl. simpl. by apply lookup_app_l.
Qed.

Lemma parameter_shift_term_index_error_witness :
  (parameter_shift_term broken_oracle 0 nb_x 3 0 nb_state).1
    = Raise IndexError
  /\ calls (parameter_shift_term broken_oracle 0 nb_x 3 0 nb_state).2 = [].
Proof.
  destruct (parameter_shift_term_index_error broken_oracle 0 nb_x 3 0
              nb_state nb_w eq_refl eq_refl) as (H1 & H2 & _).
  split; [exact H1 | exact H2].
Defined.





Lemma sinusoid_derivative (A B C v : R) :
  derivable_pt_lim (fun t => A + B * cos t + C * sin t)%R v
    (C * cos v - B * sin v)%R.
Proof.
  replace (C * cos v - B * sin v)%R
    with (0 + B * - sin v + C * cos v)%R by lra.
  change (derivable_pt_lim
            (fct_cte A + mult_real_fct B cos + mult_real_fct C sin)%F v
            (0 + B * - sin v + C * cos v)%R).
  repeat apply derivable_pt_lim_plus.
  - apply derivable_pt_lim_const.
  - apply derivable_pt_lim_scal, derivable_pt_lim_cos.
  - apply derivable_pt_lim_scal, derivable_pt_lim_sin.
Qed.

(** X4.  The rule is exact where the markdown says it is: if, as a
    function of entry [(i, j)] alone, the oracle is [A + B cos t + C sin t]
    (the dependence of an expectation value on a Pauli rotation angle),
    then [parameter_shift_term] returns [C cos v - B sin v], the derivative
    of that function at the entry's value [v]. *)
Theorem parameter_shift_term_sinusoid (q : oracle) (p : loc) (x : list R)
    (i j : nat) (st : state) (rows : list (list R)) (v A B C : R) :
  heap st !! p = Some (Array2 rows) ->
  entry rows i j = Some v ->
  (forall t, q x (Array2 (set_entry rows i j t))
             = inr (A + B * cos t + C * sin t)%R) ->
  (parameter_shift_term q p x i j st).1 = Ok (C * cos v - B * sin v)%R
  /\ derivable_pt_lim (fun t => A + B * cos t + C * sin t)%R v
       (C * cos v - B * sin v)%R.
Proof.
  intros Hp Hv Hq. split; [|apply sinusoid_derivative].
  rewrite (parameter_shift_term_run _ _ _ _ _ _ _ _ Hp Hv). cbv zeta.
  rewrite !Hq. simpl. do 2 f_equal.
  replace (v + PI / 2 - PI)%R with (v - PI / 2)%R by lra.
  rewrite cos_plus, sin_plus, cos_minus, sin_minus, cos_PI2, sin_PI2. lra.
Qed.

Lemma parameter_shift_term_sinusoid_witness :
  (parameter_shift_term (pure_oracle (sinusoid_oracle 1 2 3)) 0 nb_x 0 0
     (mkState [Array2 [[0%R]]] [])).1 = Ok (3 * cos 0 - 2 * sin 0)%R.
Proof.
  apply (parameter_shift_term_sinusoid (pure_oracle (sinusoid_oracle 1 2 3))
           0 nb_x 0 0 (mkState [Array2 [[0%R]]] []) [[0%R]] 0%R 1%R 2%R 3%R
           eq_refl eq_refl).
  intros t. reflexivity.
Defined.

(** X5.  If the oracle does not depend on entry [(i, j)], the estimate
    for that entry is 0. *)
Theorem parameter_shift_term_insensitive (q : oracle) (p : loc)
    (x : list R) (i j : nat) (st : state) (rows : list (list R))
    (v c : R) :
  heap st !! p = Some (Array2 rows) ->
  entry rows i j = Some v ->
  (forall t, q x (Array2 (set_entry rows i j t)) = inr c) ->
  (parameter_shift_term q p x i j st).1 = Ok 0%R.
Proof.
  intros Hp Hv Hq.
  rewrite (parameter_shift_term_run _ _ _ _ _ _ _ _ Hp Hv). cbv zeta.
  rewrite !Hq. simpl. do 2 f_equal. lra.
Qed.

Lemma parameter_shift_term_insensitive_witness :
  (parameter_shift_term (pure_oracle first_entry_oracle) 0 nb_x 1 0
     nb_state).1 = Ok 0%R.
Proof.
  apply (parameter_shift_term_insensitive (pure_oracle first_entry_oracle)
           0 nb_x 1 0 nb_state nb_w (-1.4)%R (-2.1)%R eq_refl eq_refl).
  intros t. reflexivity.
Defined.



(** ** The oracle calls of [parameter_shift], in order *)

Lemma row_calls_S x rows i m :
  row_calls x rows i (S m) = row_calls x rows i m ++ shift_calls x rows i m.
Proof.
  unfold row_calls. rewrite seq_S, flat_map_app. cbn [flat_map].
  by rewrite app_nil_r.
Qed.

Lemma calls_before_S x rows W k m :
  calls_before x rows W k (S m)
  = calls_before x rows W k m ++ shift_calls x rows k m.
Proof. unfold calls_before. by rewrite row_calls_S, app_assoc. Qed.

Lemma calls_before_row x rows W k :
  calls_before x rows W k W = calls_before x rows W (S k) 0.
Proof.
  unfold calls_before. rewrite seq_S, flat_map_app. cbn [flat_map].
  unfold row_calls at 3. cbn [seq flat_map]. by rewrite !app_nil_r.
Qed.

Lemma length_row_calls x rows i m : length (row_calls x rows i m) = 2 * m.
Proof.
  induction m as [|m IH]; [done|].
  rewrite row_calls_S, length_app, IH. simpl. lia.
Qed.

Lemma length_calls_before x rows W k m :
  length (calls_before x rows W k m) = 2 * (k * W + m).
Proof.
  unfold calls_before. rewrite length_app, length_row_calls.
  induction k as [|k IH]; [simpl; lia|].
  rewrite seq_S, flat_map_app, length_app. cbn [flat_map].
  rewrite app_nil_r, length_row_calls. lia.
Qed.

Lemma covers_until_before rows W k m i j :
  covers_until rows W k m = true ->
  (i < k /\ j < W) \/ (i = k /\ j < m) -> is_Some (entry rows i j).
Proof.
  unfold covers_until. intros [Hc Hk]%andb_true_iff [[Hi Hj]|[-> Hj]].
  - by eapply covers_entry.
  - destruct (rows !! k) as [r|] eqn:Hr.
    + apply Nat.leb_le in Hk.
      destruct (lookup_lt_is_Some_2 r j) as [v Hv]; [lia|].
      exists v. apply entry_Some. eauto.
    + apply Nat.eqb_eq in Hk. lia.
Qed.

Lemma covers_covers_until rows L W :
  covers rows L W = true -> covers_until rows W L 0 = true.
Proof.
  intros H. unfold covers_until. rewrite H. simpl.
  by destruct (rows !! L).
Qed.

Lemma for_each_seq_raise (I : nat -> state -> Prop) (J : state -> Prop)
    (body : nat -> M unit) (e : exn) (n' a n : nat) :
  n' < n ->
  (forall k st, a <= k < a + n' -> I k st ->
     exists st', body k st = (Ok tt, st') /\ I (S k) st') ->
  (forall st, I (a + n') st ->
     exists st', body (a + n') st = (Raise e, st') /\ J st') ->
  forall st, I a st ->
    exists st', for_each (seq a n) body st = (Raise e, st') /\ J st'.
Proof.
  revert a n. induction n' as [|n' IH]; intros a n Hn Hok Hbad st Ha.
  - destruct n as [|n]; [lia|]. rewrite Nat.add_0_r in Hbad.
    destruct (Hbad st Ha) as (st' & E & HJ). exists st'. split; [|done].
    simpl. by rewrite (bind_Raise _ _ _ _ _ E).
  - destruct n as [|n]; [lia|].
    destruct (Hok a st ltac:(lia) Ha) as (st1 & E1 & H1).
    destruct (IH (S a) n ltac:(lia)) with (st := st1)
      as (st' & E & HJ); [| |done|].
    + intros k st2 Hk. apply Hok. lia.
    + replace (S a + n') with (a + S n') by lia. apply Hbad.
    + exists st'. split; [|done]. simpl.
      by rewrite (bind_Ok _ _ _ _ _ E1).
Qed.

Section Traced.
Variables (w : loc) (f : list R -> ndarray -> R) (x : list R).
Variables (st0 : state) (wrows : list (list R)) (L W : nat).
Hypothesis Hw : heap st0 !! w = Some (Array2 wrows).

Lemma traced_w k m st :
  traced st0 f x wrows L W k m st -> heap st !! w = Some (Array2 wrows).
Proof.
  intros [(Hfr & _) _]. rewrite Hfr; [done | by eapply lookup_lt_Some].
Qed.

Lemma body_traced k m st v :
  entry wrows k m = Some v -> k < L -> m < W ->
  traced st0 f x wrows L W k m st ->
  exists st',
    (g <- parameter_shift_term (pure_oracle f) w x k m ;;
     setitem2 (length (heap st0)) k m g) st = (Ok tt, st')
    /\ traced st0 f x wrows L W k (S m) st'.
Proof.
  intros Hv Hk Hm Htr. pose proof (traced_w _ _ _ Htr) as Hw'.
  destruct Htr as [(Hfr & (G & HG & Hsh & Hent) & Hc) Hcalls].
  destruct (has_shape_entry _ _ _ k m Hsh Hk Hm) as [g0 Hg0].
  pose proof (lookup_lt_Some _ _ _ HG) as Hlt.
  eexists. split.
  - erewrite bind_Ok.
    2:{ rewrite (parameter_shift_term_run _ _ _ _ _ _ _ _ Hw' Hv).
        unfold pure_oracle. cbv zeta. reflexivity. }
    erewrite setitem2_run; [reflexivity| |exact Hg0].
    simpl. by apply lookup_app_l_Some.
  - unfold traced, progress. simpl. split_and!.
    + intros l Hl. rewrite list_lookup_insert_ne by lia.
      rewrite lookup_app_l by lia. by apply Hfr.
    + eexists. split_and!.
      * apply list_lookup_insert_eq. rewrite length_app. lia.
      * by apply has_shape_set_entry.
      * intros i j Hij.
        destruct (decide ((k, m) = (i, j))) as [[= <- <-]|Hne].
        -- erewrite entry_set_entry_eq by done.
           by rewrite shift_estimate_unfold.
        -- rewrite entry_set_entry_ne by done. apply Hent.
           destruct Hij as [?|[-> ?]]; [by left|right].
           split; [done|]. destruct (decide (j = m)) as [->|]; [done|lia].
    + rewrite length_app, Hc. simpl. lia.
    + rewrite Hcalls, calls_before_S, <- app_assoc.
      by rewrite (shift_calls_unfold _ _ _ _ _ Hv).
Qed.

Lemma body_gap k m st :
  entry wrows k m = None ->
  traced st0 f x wrows L W k m st ->
  exists st',
    (g <- parameter_shift_term (pure_oracle f) w x k m ;;
     setitem2 (length (heap st0)) k m g) st = (Raise IndexError, st')
    /\ calls st' = calls st0 ++ calls_before x wrows W k m.
Proof.
  intros Hv Htr. pose proof (traced_w _ _ _ Htr) as Hw'.
  destruct Htr as [_ Hcalls]. eexists. split.
  - erewrite bind_Raise; [reflexivity|].
    by apply parameter_shift_term_out_of_range.
  - done.
Qed.

Lemma len_item_traced k m st :
  0 < L -> traced st0 f x wrows L W k m st ->
  len_item (length (heap st0)) 0 st = (Ok W, st).
Proof.
  intros HL [(_ & (G & HG & Hsh & _) & _) _].
  unfold len_item, bind, deref. rewrite HG.
  destruct (lookup_lt_is_Some_2 G 0) as [r Hr].
  { rewrite (has_shape_length _ _ _ Hsh). lia. }
  rewrite Hr. by rewrite (has_shape_row _ _ _ _ _ Hsh Hr).
Qed.

Lemma traced_next_row k st :
  traced st0 f x wrows L W k W st -> traced st0 f x wrows L W (S k) 0 st.
Proof.
  intros [(Hfr & (G & HG & Hsh & Hent) & Hc) Hcalls].
  split; [split_and!; [done| |]|].
  - exists G. split_and!; [done|done|]. intros i j Hij. apply Hent.
    destruct Hij as [[Hi Hj]|[_ Hj]]; [|lia].
    destruct (decide (i = k)) as [->|]; [by right | left; lia].
  - rewrite Hc. lia.
  - by rewrite Hcalls, calls_before_row.
Qed.

Lemma row_traced k st :
  k < L -> (forall j, j < W -> is_Some (entry wrows k j)) ->
  traced st0 f x wrows L W k 0 st ->
  exists st',
    (m <- len_item (length (heap st0)) 0 ;;
     for_each (range m) (fun j =>
       g <- parameter_shift_term (pure_oracle f) w x k j ;;
       setitem2 (length (heap st0)) k j g)) st = (Ok tt, st')
    /\ traced st0 f x wrows L W (S k) 0 st'.
Proof.
  intros Hk Hrow Htr.
  rewrite (bind_Ok _ _ _ _ _ (len_item_traced _ _ _ ltac:(lia) Htr)).
  destruct (for_each_range_inv (traced st0 f x wrows L W k)
              (fun j => g <- parameter_shift_term (pure_oracle f) w x k j ;;
                        setitem2 (length (heap st0)) k j g) W)
    with (st := st) as (st' & E & Htr'); [|done|].
  { intros m st1 Hm Htr1. destruct (Hrow m Hm) as [v Hv].
    by eapply body_traced. }
  exists st'. split; [done | by apply traced_next_row].
Qed.

Lemma row_gap k m st :
  k < L -> m < W -> (forall j, j < m -> is_Some (entry wrows k j)) ->
  entry wrows k m = None ->
  traced st0 f x wrows L W k 0 st ->
  exists st',
    (m <- len_item (length (heap st0)) 0 ;;
     for_each (range m) (fun j =>
       g <- parameter_shift_term (pure_oracle f) w x k j ;;
       setitem2 (length (heap st0)) k j g)) st = (Raise IndexError, st')
    /\ calls st' = calls st0 ++ calls_before x wrows W k m.
Proof.
  intros Hk Hm Hrow Hgap Htr.
  rewrite (bind_Ok _ _ _ _ _ (len_item_traced _ _ _ ltac:(lia) Htr)).
  apply (for_each_seq_raise (traced st0 f x wrows L W k)
           (fun st' => calls st' = calls st0 ++ calls_before x wrows W k m)
           _ IndexError m 0 W Hm); [| |done].
  - intros j st1 Hj Htr1. destruct (Hrow j ltac:(lia)) as [v Hv].
    eapply body_traced; [done|done|lia|done].
  - intros st1 Htr1. by apply body_gap.
Qed.


Lemma rows_gap k m st :
  k < L -> m < W -> covers_until wrows W k m = true ->
  entry wrows k m = None ->
  traced st0 f x wrows L W 0 0 st ->
  exists st',
    for_each (range L) (fun i =>
      m <- len_item (length (heap st0)) 0 ;;
      for_each (range m) (fun j =>
        g <- parameter_shift_term (pure_oracle f) w x i j ;;
        setitem2 (length (heap st0)) i j g)) st = (Raise IndexError, st')
    /\ calls st' = calls st0 ++ calls_before x wrows W k m.
Proof.
  intros Hk Hm Hcov Hgap.
  apply (for_each_seq_raise (fun k => traced st0 f x wrows L W k 0)
           (fun st' => calls st' = calls st0 ++ calls_before x wrows W k m)
           _ IndexError k 0 L Hk).
  - intros i st1 Hi. apply row_traced; [lia|].
    intros j Hj. eapply covers_until_before; [done|]. left. lia.
  - intros st1. simpl. apply row_gap; [done|done| |done].
    intros j Hj. eapply covers_until_before; [done|]. by right.
Qed.
End Traced.

Lemma parameter_shift_loop w q params x st prows L W :
  array_of st params = Some (Array2 prows) ->
  has_shape prows L W = true ->
  parameter_shift w q params x st =
    (for_each (range L) (fun i =>
       m <- len_item (length (heap st)) 0 ;;
       for_each (range m) (fun j =>
         g <- parameter_shift_term q w x i j ;;
         setitem2 (length (heap st)) i j g)) ;;;
     ret (length (heap st)))
      (mkState (heap st ++ [Array2 (zero_rows prows)]) (calls st)).
Proof.
  intros Hp Hsh. unfold parameter_shift.
  rewrite (bind_Ok _ _ _ _ _ (zeros_like_run _ _ _ Hp)).
  erewrite bind_Ok; [|apply len_run; apply lookup_fresh].
  simpl zeros_of. cbv iota. unfold zero_rows at 1. rewrite length_map.
  by rewrite (has_shape_length _ _ _ Hsh).
Qed.

Lemma traced_start f x st wrows prows L W :
  has_shape prows L W = true ->
  traced st f x wrows L W 0 0
    (mkState (heap st ++ [Array2 (zero_rows prows)]) (calls st)).
Proof.
  intros Hsh. split; [split_and!|].
  - intros l Hl. simpl. by apply lookup_app_l.
  - exists (zero_rows prows). split_and!.
    + apply lookup_fresh.
    + by rewrite has_shape_zero_rows.
    + intros i j [[? _]|[_ ?]]; lia.
  - simpl. lia.
  - simpl. unfold calls_before, row_calls. simpl. by rewrite app_nil_r.
Qed.



(** X8.  The bounds of the loops come from the argument, the entries
    from [w].  If [(k, m)] is the first index pair of the argument's shape,
    in row-major order, that is not an index pair of [w], the run raises
    [IndexError] there: it returns no array, and has made the two oracle
    calls of each earlier pair, [2 * (k * W + m)] calls in all. *)
Theorem parameter_shift_index_error (w : loc)
    (f : list R -> ndarray -> R) (x : list R) (st : state)
    (wrows : list (list R)) (params : arraylike)
    (prows : list (list R)) (L W k m : nat) :
  heap st !! w = Some (Array2 wrows) ->
  array_of st params = Some (Array2 prows) ->
  has_shape prows L W = true ->
  k < L -> m < W ->
  covers_until wrows W k m = true ->
  entry wrows k m = None ->
  (parameter_shift w (pure_oracle f) params x st).1 = Raise IndexError
  /\ calls (parameter_shift w (pure_oracle f) params x st).2
     = calls st ++ calls_before x wrows W k m
  /\ length (calls (parameter_shift w (pure_oracle f) params x st).2)
     = length (calls st) + 2 * (k * W + m).
Proof.
  intros Hw Hp Hsh Hk Hm Hcov Hgap.
  rewrite (parameter_shift_loop _ _ _ _ _ _ _ _ Hp Hsh).
  destruct (rows_gap w f x st wrows L W Hw k m _ Hk Hm Hcov Hgap
              (traced_start f x st wrows prows L W Hsh))
    as (st' & E & Hcalls).
  rewrite (bind_Raise _ _ _ _ _ E). simpl. split_and!; [done|done|].
  by rewrite Hcalls, length_app, length_calls_before.
Qed.

Lemma parameter_shift_index_error_witness :
  (parameter_shift 0 (pure_oracle product_oracle) (Ref 1) nb_x
     taller_tensor).1 = Raise IndexError
  /\ calls (parameter_shift 0 (pure_oracle product_oracle) (Ref 1) nb_x
              taller_tensor).2
     = [] ++ calls_before nb_x nb_w 2 3 0
  /\ length (calls (parameter_shift 0 (pure_oracle product_oracle) (Ref 1)
                      nb_x taller_tensor).2) = 0 + 2 * (3 * 2 + 0).
Proof.
  apply (parameter_shift_index_error 0 product_oracle nb_x taller_tensor
           nb_w (Ref 1) zeros_4_2 4 2 3 0);
    first [reflexivity | lia].
Defined.

(** ** The array [parameter_shift] returns *)

(** X9.  With an oracle that returns and a [w] that covers the shape
    [(L, W)] of the argument, one run makes exactly [2 * L * W] oracle
    calls and returns an array of shape [(L, W)]. *)
Theorem parameter_shift_count_and_shape (w : loc)
    (f : list R -> ndarray -> R) (x : list R) (st : state)
    (wrows : list (list R)) (params : arraylike)
    (prows : list (list R)) (L W : nat) :
  heap st !! w = Some (Array2 wrows) ->
  array_of st params = Some (Array2 prows) ->
  has_shape prows L W = true ->
  covers wrows L W = true ->
  exists g G,
    (parameter_shift w (pure_oracle f) params x st).1 = Ok g
    /\ heap (parameter_shift w (pure_oracle f) params x st).2 !! g
       = Some (Array2 G)
    /\ has_shape G L W = true
    /\ length (calls (parameter_shift w (pure_oracle f) params x st).2)
       = length (calls st) + 2 * L * W.
Proof.
  intros Hw Hp Hsh Hcov.
  destruct (parameter_shift_run w f x st wrows params prows L W
              Hw Hp Hsh Hcov) as (st' & G & E & HG & HshG & _ & Hc & _).
  exists (length (heap st)), G. rewrite E.
  split_and!; [reflexivity | exact HG | exact HshG | exact Hc].
Qed.

Lemma parameter_shift_count_and_shape_witness :
  exists g G,
    (parameter_shift 0 (pure_oracle product_oracle) (Ref 1) nb_x
       two_tensors).1 = Ok g
    /\ heap (parameter_shift 0 (pure_oracle product_oracle) (Ref 1) nb_x
               two_tensors).2 !! g = Some (Array2 G)
    /\ has_shape G 3 2 = true
    /\ length (calls (parameter_shift 0 (pure_oracle product_oracle)
                        (Ref 1) nb_x two_tensors).2) = 0 + 2 * 3 * 2.
Proof.
  exact (parameter_shift_count_and_shape 0 product_oracle nb_x two_tensors
           nb_w (Ref 1) zeros_3_2 3 2 eq_refl eq_refl eq_refl eq_refl).
Defined.

(** X10.  Called on [w] itself, as the notebook does, [parameter_shift]
    returns the shift estimates of its argument: entry [(i, j)] of the
    result is half the difference of the oracle at the argument with entry
    [(i, j)] raised and lowered by [PI / 2]. *)
Theorem parameter_shift_of_w (w : loc) (f : list R -> ndarray -> R)
    (x : list R) (st : state) (wrows : list (list R)) (L W : nat) :
  heap st !! w = Some (Array2 wrows) ->
  has_shape wrows L W = true ->
  exists g G,
    (parameter_shift w (pure_oracle f) (Ref w) x st).1 = Ok g
    /\ heap (parameter_shift w (pure_oracle f) (Ref w) x st).2 !! g
       = Some (Array2 G)
    /\ forall i j, i < L -> j < W ->
         entry G i j = Some (shift_estimate f x wrows i j).
Proof.
  intros Hw Hsh.
  destruct (parameter_shift_run w f x st wrows (Ref w) wrows L W Hw Hw Hsh
              (has_shape_covers _ _ _ Hsh))
    as (st' & G & E & HG & _ & Hent & _).
  exists (length (heap st)), G. rewrite E.
  split_and!; [reflexivity | exact HG | exact Hent].
Qed.

Lemma parameter_shift_of_w_witness :
  exists g G,
    (parameter_shift 0 (pure_oracle product_oracle) (Ref 0) nb_x
       nb_state).1 = Ok g
    /\ heap (parameter_shift 0 (pure_oracle product_oracle) (Ref 0) nb_x
               nb_state).2 !! g = Some (Array2 G)
    /\ forall i j, i < 3 -> j < 2 ->
         entry G i j = Some (shift_estimate product_oracle nb_x nb_w i j).
Proof.
  exact (parameter_shift_of_w 0 product_oracle nb_x nb_state nb_w 3 2
           eq_refl eq_refl).
Defined.

(** X11.  No aliasing: the array [parameter_shift] returns is a new
    object, none of those that existed before the call, and those are all
    as they were, whatever the argument, the oracle and the outcome. *)
Theorem parameter_shift_no_aliasing (w : loc) (q : oracle)
    (params : arraylike) (x : list R) (st : state) :
  (forall g, (parameter_shift w q params x st).1 = Ok g ->
     length (heap st) <= g)
  /\ (forall l a, heap st !! l = Some a ->
       heap (parameter_shift w q params x st).2 !! l = Some a).
Proof.
  destruct (keeps_parameter_shift (length (heap st)) w q params x st)
    as (Hfr & _ & Hnew); [done|].
  split; [exact Hnew|]. intros l a Hl. rewrite Hfr; [done|].
  by eapply lookup_lt_Some.
Qed.

Lemma parameter_shift_no_aliasing_witness :
  heap (parameter_shift 0 broken_oracle (Ref 1) nb_x two_tensors).2 !! 1
    = Some (Array2 zeros_3_2).
Proof.
  destruct (parameter_shift_no_aliasing 0 broken_oracle (Ref 1) nb_x
              two_tensors) as [_ H].
  exact (H 1 (Array2 zeros_3_2) eq_refl).
Defined.

Lemma derivable_pt_lim_pointwise (f g : R -> R) (v d : R) :
  (forall t, f t = g t) -> derivable_pt_lim g v d -> derivable_pt_lim f v d.
Proof.
  intros Hfg Hg eps Heps. destruct (Hg eps Heps) as [delta H].
  exists delta. intros h Hh Hd. rewrite !Hfg. by apply H.
Qed.

(** X12.  The gradient: if the oracle is sinusoidal in each entry of [w]
    taken alone ([A + B cos t + C sin t], the coefficients depending on the
    entry), the array returned by [parameter_shift] on [w] holds at
    [(i, j)] the partial derivative of the oracle with respect to entry
    [(i, j)], at [w]. *)
Theorem parameter_shift_gradient (w : loc) (f : list R -> ndarray -> R)
    (x : list R) (st : state) (wrows : list (list R)) (L W : nat)
    (A B C : nat -> nat -> R) :
  heap st !! w = Some (Array2 wrows) ->
  has_shape wrows L W = true ->
  (forall i j t, i < L -> j < W ->
     f x (Array2 (set_entry wrows i j t))
     = (A i j + B i j * cos t + C i j * sin t)%R) ->
  exists g G,
    (parameter_shift w (pure_oracle f) (Ref w) x st).1 = Ok g
    /\ heap (parameter_shift w (pure_oracle f) (Ref w) x st).2 !! g
       = Some (Array2 G)
    /\ forall i j v, i < L -> j < W -> entry wrows i j = Some v ->
         exists d, entry G i j = Some d
           /\ derivable_pt_lim
                (fun t => f x (Array2 (set_entry wrows i j t))) v d.
Proof.
  intros Hw Hsh Hsin.
  destruct (parameter_shift_of_w w f x st wrows L W Hw Hsh)
    as (g & G & E & HG & Hent).
  exists g, G. split_and!; [exact E | exact HG |].
  intros i j v Hi Hj Hv. exists (C i j * cos v - B i j * sin v)%R. split.
  - rewrite (Hent i j Hi Hj). f_equal.
    unfold shift_estimate. rewrite !(bump_Some _ _ _ _ _ Hv).
    rewrite !Hsin by done.
    replace (v + - (PI / 2))%R with (v - PI / 2)%R by lra.
    rewrite cos_plus, sin_plus, cos_minus, sin_minus, cos_PI2, sin_PI2.
    lra.
  - eapply derivable_pt_lim_pointwise; [|apply sinusoid_derivative].
    intros t. by apply Hsin.
Qed.

Lemma parameter_shift_gradient_witness :
  exists g G,
    (parameter_shift 0 (pure_oracle (sinusoid_oracle 1 2 3)) (Ref 0) nb_x
       (mkState [Array2 [[0%R]]] [])).1 = Ok g
    /\ heap (parameter_shift 0 (pure_oracle (sinusoid_oracle 1 2 3)) (Ref 0)
               nb_x (mkState [Array2 [[0%R]]] [])).2 !! g = Some (Array2 G)
    /\ forall i j v, i < 1 -> j < 1 -> entry [[0%R]] i j = Some v ->
         exists d, entry G i j = Some d
           /\ derivable_pt_lim
                (fun t => sinusoid_oracle 1 2 3 nb_x
                            (Array2 (set_entry [[0%R]] i j t))) v d.
Proof.
  apply (parameter_shift_gradient 0 (sinusoid_oracle 1 2 3) nb_x
           (mkState [Array2 [[0%R]]] []) [[0%R]] 1 1
           (fun _ _ => 1%R) (fun _ _ => 2%R) (fun _ _ => 3%R)
           eq_refl eq_refl).
  intros i j t Hi Hj.
  destruct i as [|i]; [|lia]. destruct j as [|j]; [|lia]. reflexivity.
Defined.

(** ** Runs one after the other, and the cost model *)

Lemma array_of_kept st st' params a :
  array_of st params = Some a ->
  (forall l, l < length (heap st) -> heap st' !! l = heap st !! l) ->
  array_of st' params = Some a.
Proof.
  destruct params as [l|rows]; simpl; [|done].
  intros Hl Hfr. rewrite Hfr; [done | by eapply lookup_lt_Some].
Qed.

(** X13.  [num_evals] agrees with the code it counts for: one run of
    [parameter_shift] on a tensor of [L * W] parameters makes
    [num_evals(L * W, 1)] oracle calls (the oracle returning, [w] covering
    the shape). *)
Theorem parameter_shift_cost (w : loc) (f : list R -> ndarray -> R)
    (x : list R) (st : state) (wrows : list (list R))
    (params : arraylike) (prows : list (list R)) (L W : nat) :
  heap st !! w = Some (Array2 wrows) ->
  array_of st params = Some (Array2 prows) ->
  has_shape prows L W = true ->
  covers wrows L W = true ->
  (num_evals (Z.of_nat (L * W)) 1 st).1
  = Ok (Z.of_nat
          (length (calls (parameter_shift w (pure_oracle f) params x st).2))
        - Z.of_nat (length (calls st)))%Z.
Proof.
  intros Hw Hp Hsh Hcov.
  destruct (parameter_shift_run w f x st wrows params prows L W
              Hw Hp Hsh Hcov) as (st' & G & E & _ & _ & _ & Hc & _).
  rewrite E. simpl. rewrite Hc. f_equal. lia.
Qed.

Lemma parameter_shift_cost_witness :
  (num_evals (Z.of_nat (3 * 2)) 1 nb_state).1
  = Ok (Z.of_nat
          (length (calls (parameter_shift 0 (pure_oracle product_oracle)
                            (Ref 0) nb_x nb_state).2))
        - Z.of_nat (length (calls nb_state)))%Z.
Proof.
  exact (parameter_shift_cost 0 product_oracle nb_x nb_state nb_w (Ref 0)
           nb_w 3 2 eq_refl eq_refl eq_refl eq_refl).
Defined.

(** X14.  [n_steps] gradient computations one after the other, on the
    same [w] and argument, all run to their end and make
    [num_evals(L * W, n_steps)] oracle calls in all: no run disturbs what
    the next one reads. *)
Theorem gradient_steps_cost (w : loc) (f : list R -> ndarray -> R)
    (x : list R) (st : state) (wrows : list (list R))
    (params : arraylike) (prows : list (list R)) (L W n_steps : nat) :
  heap st !! w = Some (Array2 wrows) ->
  array_of st params = Some (Array2 prows) ->
  has_shape prows L W = true ->
  covers wrows L W = true ->
  exists st',
    gradient_steps w (pure_oracle f) params x n_steps st = (Ok tt, st')
    /\ (num_evals (Z.of_nat (L * W)) (Z.of_nat n_steps) st').1
       = Ok (Z.of_nat (length (calls st'))
             - Z.of_nat (length (calls st)))%Z.
Proof.
  intros Hw Hp Hsh Hcov. unfold gradient_steps.
  destruct (for_each_range_inv
              (fun k st1 =>
                 heap st1 !! w = Some (Array2 wrows)
                 /\ array_of st1 params = Some (Array2 prows)
                 /\ length (calls st1) = length (calls st) + 2 * L * W * k)
              (fun _ => parameter_shift w (pure_oracle f) params x ;;; ret tt)
              n_steps) with (st := st) as (st' & E & _ & _ & Hc).
  - intros k st1 _ (Hw1 & Hp1 & Hc1).
    destruct (parameter_shift_run w f x st1 wrows params prows L W
                Hw1 Hp1 Hsh Hcov) as (st2 & G & E & _ & _ & _ & Hc2 & Hfr).
    exists st2. split; [by rewrite (bind_Ok _ _ _ _ _ E)|]. split_and!.
    + rewrite Hfr; [done | by eapply lookup_lt_Some].
    + by eapply array_of_kept.
    + rewrite Hc2, Hc1. lia.
  - split_and!; [done | done | lia].
  - exists st'. split; [exact E|]. simpl. rewrite Hc. f_equal. lia.
Qed.

Lemma gradient_steps_cost_witness :
  exists st',
    gradient_steps 0 (pure_oracle product_oracle) (Ref 0) nb_x 2 nb_state
      = (Ok tt, st')
    /\ (num_evals (Z.of_nat (3 * 2)) (Z.of_nat 2) st').1
       = Ok (Z.of_nat (length (calls st'))
             - Z.of_nat (length (calls nb_state)))%Z.
Proof.
  exact (gradient_steps_cost 0 product_oracle nb_x nb_state nb_w (Ref 0)
           nb_w 3 2 2 eq_refl eq_refl eq_refl eq_refl).
Defined.

(** X15.  A second run returns another array with the same entries as
    the first, and leaves the first one as it was: a run keeps nothing
    that changes the next. *)
Theorem parameter_shift_twice (w : loc) (f : list R -> ndarray -> R)
    (x : list R) (st : state) (wrows : list (list R))
    (params : arraylike) (prows : list (list R)) (L W : nat) :
  heap st !! w = Some (Array2 wrows) ->
  array_of st params = Some (Array2 prows) ->
  has_shape prows L W = true ->
  covers wrows L W = true ->
  exists g1 st1 g2 st2 G1 G2,
    parameter_shift w (pure_oracle f) params x st = (Ok g1, st1)
    /\ parameter_shift w (pure_oracle f) params x st1 = (Ok g2, st2)
    /\ g1 < g2
    /\ heap st1 !! g1 = Some (Array2 G1)
    /\ heap st2 !! g1 = Some (Array2 G1)
    /\ heap st2 !! g2 = Some (Array2 G2)
    /\ forall i j, i < L -> j < W -> entry G1 i j = entry G2 i j.
Proof.
  intros Hw Hp Hsh Hcov.
  destruct (parameter_shift_run w f x st wrows params prows L W
              Hw Hp Hsh Hcov)
    as (st1 & G1 & E1 & HG1 & _ & Hent1 & _ & Hfr1).
  assert (heap st1 !! w = Some (Array2 wrows)) as Hw1.
  { rewrite Hfr1; [done | by eapply lookup_lt_Some]. }
  pose proof (array_of_kept _ _ _ _ Hp Hfr1) as Hp1.
  destruct (parameter_shift_run w f x st1 wrows params prows L W
              Hw1 Hp1 Hsh Hcov)
    as (st2 & G2 & E2 & HG2 & _ & Hent2 & _ & Hfr2).
  pose proof (lookup_lt_Some _ _ _ HG1) as Hlt.
  exists (length (heap st)), st1, (length (heap st1)), st2, G1, G2.
  split_and!; [exact E1 | exact E2 | exact Hlt | exact HG1 | | exact HG2 |].
  - by rewrite Hfr2.
  - intros i j Hi Hj. by rewrite Hent1, Hent2.
Qed.

Lemma parameter_shift_twice_witness :
  exists g1 st1 g2 st2 G1 G2,
    parameter_shift 0 (pure_oracle product_oracle) (Ref 0) nb_x nb_state
      = (Ok g1, st1)
    /\ parameter_shift 0 (pure_oracle product_oracle) (Ref 0) nb_x st1
       = (Ok g2, st2)
    /\ g1 < g2
    /\ heap st1 !! g1 = Some (Array2 G1)
    /\ heap st2 !! g1 = Some (Array2 G1)
    /\ heap st2 !! g2 = Some (Array2 G2)
    /\ forall i j, i < 3 -> j < 2 -> entry G1 i j = entry G2 i j.
Proof.
  exact (parameter_shift_twice 0 product_oracle nb_x nb_state nb_w (Ref 0)
           nb_w 3 2 eq_refl eq_refl eq_refl eq_refl).
Defined.

(** ** The plotting cell *)

Lemma comprehension_pure {A B} (l : list A) (g : A -> B) (f : A -> M B) st :
  (forall a, f a st = (Ok (g a), st)) ->
  comprehension l f st = (Ok (map g l), st).
Proof.
  intros Hf. induction l as [|a l IH]; [done|]. simpl.
  rewrite (bind_Ok _ _ _ _ _ (Hf a)). by rewrite (bind_Ok _ _ _ _ _ IH).
Qed.

(** X16.  The two curves of the plot: for an [x_axis] of integers from 1
    up, [scaling] and the baseline have one value per point, the baseline
    is the point [i] itself and the parameter-shift cost is [2 * i] times
    it, so never less than twice the baseline; neither list raises nor
    changes the state. *)
Theorem scaling_and_backprop (xs : list Z) (st : state) :
  forallb (fun i => (1 <=? i)%Z) xs = true ->
  exists sc,
    scaling xs st = (Ok sc, st)
    /\ backprop xs st = (Ok xs, st)
    /\ length sc = length xs
    /\ forall k i, xs !! k = Some i ->
         sc !! k = Some (2 * i * i)%Z /\ (2 * i <= 2 * i * i)%Z.
Proof.
  intros Hpos. exists (map (fun i => (2 * i * i)%Z) xs). split_and!.
  - by apply comprehension_pure.
  - unfold backprop.
    rewrite (comprehension_pure xs (fun a => a)) by done.
    by rewrite map_id.
  - apply length_map.
  - intros k i Hk. split.
    + by rewrite list_lookup_fmap, Hk.
    + rewrite forallb_forall in Hpos.
      assert (1 <= i)%Z.
      { apply Z.leb_le, Hpos, list_elem_of_In.
        by eapply list_elem_of_lookup_2. }
      nia.
Qed.

Lemma scaling_and_backprop_witness :
  exists sc,
    scaling x_axis nb_state = (Ok sc, nb_state)
    /\ backprop x_axis nb_state = (Ok x_axis, nb_state)
    /\ length sc = length x_axis
    /\ forall k i, x_axis !! k = Some i ->
         sc !! k = Some (2 * i * i)%Z /\ (2 * i <= 2 * i * i)%Z.
Proof. apply (scaling_and_backprop x_axis nb_state). reflexivity. Defined.

(** ** More on [parameter_shift_term] and on tensors that are not 2-D *)

Lemma parameter_shift_term_private_copy_witness :
  exists new,
    calls (parameter_shift_term broken_oracle 0 nb_x 0 0 nb_state).2
      = calls nb_state ++ new
    /\ forall c, c ∈ new ->
         exists a, c = (nb_x, Array2 a)
           /\ forall i' j', (0, 0) <> (i', j') ->
                entry a i' j' = entry nb_w i' j'.
Proof.
  exact (proj2 (parameter_shift_term_private_copy broken_oracle 0 nb_x 0 0
                  nb_state nb_w eq_refl)).
Defined.



(** X19.  A tensor of one dimension is refused by both functions, before
    any oracle call: [parameter_shift_term] raises [IndexError] at its
    two-index update, and [parameter_shift], unless the tensor is empty,
    raises [TypeError] at [len(gradients[0])]. *)
Theorem one_dimensional_tensor (w : loc) (q : oracle) (p : loc)
    (x : list R) (i j n : nat) (st : state) :
  heap st !! p = Some (Array1 n) ->
  0 < n ->
  (parameter_shift_term q p x i j st).1 = Raise IndexError
  /\ calls (parameter_shift_term q p x i j st).2 = calls st
  /\ (parameter_shift w q (Ref p) x st).1 = Raise TypeError
  /\ calls (parameter_shift w q (Ref p) x st).2 = calls st.
Proof.
  intros Hp Hn.
  assert (parameter_shift_term q p x i j st
          = (Raise IndexError, mkState (heap st ++ [Array1 n]) (calls st)))
    as ->.
  { unfold parameter_shift_term, copy, iadd2, getitem2, bind, deref, alloc,
      raise.
    rewrite Hp. cbn [heap calls]. by rewrite lookup_fresh. }
  assert (parameter_shift w q (Ref p) x st
          = (Raise TypeError, mkState (heap st ++ [Array1 n]) (calls st)))
    as ->; [|done].
  unfold parameter_shift.
  erewrite bind_Ok; [|by apply zeros_like_run]. simpl zeros_of.
  erewrite bind_Ok; [|apply len_run; apply lookup_fresh].
  cbv iota. destruct n as [|n]; [lia|].
  cbn [range seq for_each].
  erewrite bind_Raise; [reflexivity|].
  erewrite bind_Raise; [reflexivity|].
  erewrite bind_Raise; [reflexivity|].
  unfold len_item, bind, deref. simpl heap. rewrite lookup_fresh.
  by rewrite decide_True by lia.
Qed.

Lemma one_dimensional_tensor_witness :
  (parameter_shift_term broken_oracle 0 nb_x 0 0
     (mkState [Array1 2] [])).1 = Raise IndexError
  /\ calls (parameter_shift_term broken_oracle 0 nb_x 0 0
              (mkState [Array1 2] [])).2 = []
  /\ (parameter_shift 0 broken_oracle (Ref 0) nb_x
        (mkState [Array1 2] [])).1 = Raise TypeError
  /\ calls (parameter_shift 0 broken_oracle (Ref 0) nb_x
              (mkState [Array1 2] [])).2 = [].
Proof.
  apply (one_dimensional_tensor 0 broken_oracle 0 nb_x 0 0 2
           (mkState [Array1 2] [])); [reflexivity | lia].
Defined.

(** * The dtype of the argument *)














Section IntGradient.
Variables (w : loc) (f : list R -> ndarray -> R) (x : list R).
Variables (st0 : state) (wrows : list (list R)) (L W : nat).
Hypothesis Hw : heap st0 !! w = Some (Array2 wrows).
Hypothesis Hcov : covers wrows L W = true.



End IntGradient.







(** * The shifts in float64 *)

Lemma float_value_theta_big : float_value theta_big = IZR (2 ^ 55 + 8).
Proof.
  unfold float_value.
  replace (FloatOps.Prim2SF theta_big)
    with (SpecFloat.S754_finite false 4503599627370497 3)
    by (vm_compute; reflexivity).
  change (2 ^ 55 + 8)%Z with 36028797018963976%Z.
  simpl. lra.
Qed.

Lemma float_value_theta_big_next :
  float_value theta_big_next = IZR (2 ^ 55 + 16).
Proof.
  unfold float_value.
  replace (FloatOps.Prim2SF theta_big_next)
    with (SpecFloat.S754_finite false 4503599627370498 3)
    by (vm_compute; reflexivity).
  change (2 ^ 55 + 16)%Z with 36028797018963984%Z.
  simpl. lra.
Qed.

Lemma PI_bounds : (3 < PI <= 7 / 2)%R.
Proof.
  split.
  - pose proof PI2_3_2. lra.
  - unfold PI. destruct pi2_int. lra.
Qed.

Lemma sin_8_pos : (0 < sin 8)%R.
Proof.
  destruct PI_bounds as [Hlo Hhi].
  replace 8%R with (8 - 2 * PI + PI + PI)%R by lra.
  rewrite !neg_sin, Ropp_involutive.
  apply sin_gt_0; lra.
Qed.

Lemma sin_no_two_zeros (a : R) : ~ (sin a = 0 /\ sin (a + 8) = 0)%R.
Proof.
  intros [Ha Hb]. rewrite sin_plus, Ha in Hb.
  pose proof (sin2_cos2 a) as H. rewrite Ha in H. unfold Rsqr in H.
  pose proof sin_8_pos as H8.
  assert (cos a * sin 8 = 0)%R as H0 by lra.
  apply Rmult_integral in H0 as [H0|H0]; [rewrite H0 in H|]; lra.
Qed.

(** C7 fails as stated, for every real [theta], on the code's float64
    numbers.  At [theta = 2^55 + 8] and at the next float [2^55 + 16] both
    shifts are lost in rounding: the oracle is called twice on [theta]
    itself, so the estimate is 0 for [cos] (as for any oracle); it cannot
    be [- sin theta] at both, since [sin 8] is not 0. *)
Lemma parameter_shift_term_float64_not_derivative :
  shifted_float64 theta_big = (theta_big, theta_big)
  /\ shifted_float64 theta_big_next = (theta_big_next, theta_big_next)
  /\ parameter_shift_term_float64 cos theta_big = 0%R
  /\ parameter_shift_term_float64 cos theta_big_next = 0%R
  /\ ~ (parameter_shift_term_float64 cos theta_big
         = (- sin (float_value theta_big))%R
        /\ parameter_shift_term_float64 cos theta_big_next
           = (- sin (float_value theta_big_next))%R).
Proof.
  assert (shifted_float64 theta_big = (theta_big, theta_big)) as S1
    by reflexivity.
  assert (shifted_float64 theta_big_next
          = (theta_big_next, theta_big_next)) as S2 by reflexivity.
  assert (forall t, shifted_float64 t = (t, t) ->
            parameter_shift_term_float64 cos t = 0%R) as H0.
  { intros t Ht. unfold parameter_shift_term_float64. rewrite Ht.
    simpl. lra. }
  pose proof (H0 _ S1) as E1. pose proof (H0 _ S2) as E2.
  split_and!; [exact S1 | exact S2 | exact E1 | exact E2 |].
  rewrite E1, E2, float_value_theta_big, float_value_theta_big_next.
  intros [Ha Hb]. apply (sin_no_two_zeros (IZR (2 ^ 55 + 8))).
  split; [lra|].
  replace (IZR (2 ^ 55 + 8) + 8)%R with (IZR (2 ^ 55 + 16)); [lra|].
  rewrite <- (plus_IZR (2 ^ 55 + 8) 8). f_equal.
Qed.
